(** * p5-tsboilerplate: Vector, Renderer and Helper

    A shallow embedding of [src/Math/Vector.ts], of the drawing methods of
    [src/Drawing/Renderer.ts], of [src/Utilities/Helper.ts] and of
    [src/Utilities/Grid.ts], with the properties the specification states
    about them and further properties of the code.

    Numbers.  A TypeScript [number] is modelled twice.

    [number] below is a real number, one of the two infinities, or NaN.
    Arithmetic on finite values is exact real arithmetic: rounding, overflow
    and underflow of IEEE-754 doubles are idealised away, and the two signed
    zeros are identified.  The special values follow ECMAScript: an invalid
    operation yields NaN, NaN compares unequal to everything, and so on.
    This model carries the properties that do not depend on rounding: which
    fields a method writes and in which order, which calls a drawing method
    issues, how NaN and missing arguments propagate, and the bounds that
    rounding preserves.

    Modules [F64], [Vector64] and [Obj64] are over binary64 itself, the
    primitive floats with their IEEE-754 operations.  [Math.sqrt] is the
    correctly rounded square root; of [Math.cos], [Math.sin] and [Math.atan2]
    they give the values that ECMAScript fixes exactly and nothing elsewhere.
    This model carries the properties of [normalise], [setMag], [rotate] and
    [angleBetween], which depend on overflow, underflow, rounding and the
    sign of zero.

    Objects.  A [Vector] instance is a record of three numbers.  Each method
    is given as a function on the receiver's fields (module [Vector]), and
    module [Obj] places the instances in a store indexed by references, where
    the in-place methods overwrite the receiver and [copy] allocates. *)

From Stdlib Require Import Reals Lra String.
From Stdlib Require PrimFloat FloatOps FloatAxioms SpecFloat.
From stdpp Require Import gmap list.

#[global] Instance R_eq_dec : EqDecision R := Req_dec_T.
#[global] Instance R_lt_dec (a b : R) : Decision (a < b)%R := Rlt_dec a b.
#[global] Instance R_le_dec (a b : R) : Decision (a <= b)%R := Rle_dec a b.

(** ** JavaScript numbers *)

Inductive number : Type :=
| Fin (r : R)
| PInf
| NInf
| NaN.

Module Num.
Local Open Scope R_scope.

Definition zero : number := Fin 0.
Definition one : number := Fin 1.

(** The infinity of the given sign. *)
Definition inf (positive : bool) : number := if positive then PInf else NInf.

(** [r * (+/-)Infinity]. *)
Definition scale_inf (r : R) (positive : bool) : number :=
  if decide (r = 0) then NaN
  else if decide (0 < r) then inf positive else inf (negb positive).

Definition neg (a : number) : number :=
  match a with
  | Fin r => Fin (- r)
  | PInf => NInf
  | NInf => PInf
  | NaN => NaN
  end.

Definition add (a b : number) : number :=
  match a, b with
  | NaN, _ | _, NaN => NaN
  | Fin r, Fin s => Fin (r + s)
  | PInf, NInf | NInf, PInf => NaN
  | PInf, _ | _, PInf => PInf
  | NInf, _ | _, NInf => NInf
  end.

Definition sub (a b : number) : number :=
  match a, b with
  | NaN, _ | _, NaN => NaN
  | Fin r, Fin s => Fin (r - s)
  | PInf, PInf | NInf, NInf => NaN
  | PInf, _ | _, NInf => PInf
  | NInf, _ | _, PInf => NInf
  end.

Definition mul (a b : number) : number :=
  match a, b with
  | NaN, _ | _, NaN => NaN
  | Fin r, Fin s => Fin (r * s)
  | Fin r, PInf | PInf, Fin r => scale_inf r true
  | Fin r, NInf | NInf, Fin r => scale_inf r false
  | PInf, PInf | NInf, NInf => PInf
  | PInf, NInf | NInf, PInf => NInf
  end.

Definition div (a b : number) : number :=
  match a, b with
  | NaN, _ | _, NaN => NaN
  | Fin r, Fin s =>
      if decide (s = 0) then
        (if decide (r = 0) then NaN else inf (bool_decide (0 < r)))
      else Fin (r / s)
  | Fin _, (PInf | NInf) => Fin 0
  | PInf, Fin s => inf (negb (bool_decide (s < 0)))
  | NInf, Fin s => inf (bool_decide (s < 0))
  | (PInf | NInf), (PInf | NInf) => NaN
  end.

(** [a ** 2] *)
Definition sq (a : number) : number :=
  match a with
  | Fin r => Fin (r * r)
  | PInf | NInf => PInf
  | NaN => NaN
  end.

(** [Math.sqrt] *)
Definition sqrt (a : number) : number :=
  match a with
  | Fin r => if decide (r < 0) then NaN else Fin (R_sqrt.sqrt r)
  | PInf => PInf
  | NInf | NaN => NaN
  end.

(** [Math.cos], [Math.sin] *)
Definition cos (a : number) : number :=
  match a with Fin r => Fin (Rtrigo_def.cos r) | _ => NaN end.

Definition sin (a : number) : number :=
  match a with Fin r => Fin (Rtrigo_def.sin r) | _ => NaN end.

(** The angle of the point [(x, y)] in the interval (-PI, PI], with the
    value 0 at the origin. *)
Definition atan2R (y x : R) : R :=
  if decide (0 < x) then atan (y / x)
  else if decide (x < 0) then
    (if decide (y < 0) then atan (y / x) - PI else atan (y / x) + PI)
  else if decide (0 < y) then PI / 2
  else if decide (y < 0) then - (PI / 2)
  else 0.

(** [Math.atan2] *)
Definition atan2 (y x : number) : number :=
  match y, x with
  | NaN, _ | _, NaN => NaN
  | Fin b, Fin a => Fin (atan2R b a)
  | Fin _, PInf => Fin 0
  | Fin b, NInf => if decide (b < 0) then Fin (- PI) else Fin PI
  | PInf, Fin _ => Fin (PI / 2)
  | NInf, Fin _ => Fin (- (PI / 2))
  | PInf, PInf => Fin (PI / 4)
  | PInf, NInf => Fin (3 * PI / 4)
  | NInf, PInf => Fin (- (PI / 4))
  | NInf, NInf => Fin (- (3 * PI / 4))
  end.

(** [Math.sign] *)
Definition sign (a : number) : number :=
  match a with
  | Fin r => if decide (r = 0) then Fin 0
             else if decide (0 < r) then Fin 1 else Fin (-1)
  | PInf => Fin 1
  | NInf => Fin (-1)
  | NaN => NaN
  end.

(** [a === b] *)
Definition strict_eq (a b : number) : bool :=
  match a, b with
  | Fin r, Fin s => bool_decide (r = s)
  | PInf, PInf | NInf, NInf => true
  | _, _ => false
  end.

(** [a < b] *)
Definition lt (a b : number) : bool :=
  match a, b with
  | NaN, _ | _, NaN => false
  | Fin r, Fin s => bool_decide (r < s)
  | NInf, (Fin _ | PInf) => true
  | Fin _, PInf => true
  | _, _ => false
  end.

(** [Math.max], [Math.min] *)
Definition max (a b : number) : number :=
  match a, b with
  | NaN, _ | _, NaN => NaN
  | _, _ => if lt a b then b else a
  end.

Definition min (a b : number) : number :=
  match a, b with
  | NaN, _ | _, NaN => NaN
  | _, _ => if lt b a then b else a
  end.

(** ToBoolean: 0 and NaN are falsy. *)
Definition truthy (a : number) : bool :=
  match a with
  | Fin r => negb (bool_decide (r = 0))
  | PInf | NInf => true
  | NaN => false
  end.
End Num.

(** A value read from a field that may be absent. *)
Inductive value : Type :=
| undefined
| VNum (n : number).

(** [v || d] where [d] is a number. *)
Definition or_else (v : value) (d : number) : number :=
  match v with
  | undefined => d
  | VNum n => if Num.truthy n then n else d
  end.

Declare Scope num_scope.
Delimit Scope num_scope with num.
Bind Scope num_scope with number.
Infix "+" := Num.add : num_scope.
Infix "-" := Num.sub : num_scope.
Infix "*" := Num.mul : num_scope.
Infix "/" := Num.div : num_scope.
Infix "===" := Num.strict_eq (at level 70, no associativity) : num_scope.
Infix "||" := or_else : num_scope.
Notation "0" := Num.zero : num_scope.
Notation "1" := Num.one : num_scope.

(** ** src/Math/Vector.ts *)

Module Vector.
Local Open Scope num_scope.

(** The fields of an instance. *)
Record t : Type := mk { x : number; y : number; z : number }.

(** What a method sees of its argument: an object whose [x], [y] and [z]
    fields may be absent, as in the literal [{x: 5}]. *)
Record obj : Type := mkobj { ox : value; oy : value; oz : value }.

(** An instance passed as an argument has its three fields. *)
Definition of_t (v : t) : obj := mkobj (VNum (x v)) (VNum (y v)) (VNum (z v)).

(** [constructor(x, y, z = 0)] *)
Definition new (x' y' : number) (z' : value) : t :=
  mk x' y' (match z' with undefined => 0 | VNum n => n end).

(** Each definition below returns the fields of the receiver after the
    call (for the in-place methods) or the method's result. *)

Definition add (this : t) (vector : obj) : t :=
  mk (x this + (ox vector || 0))
     (y this + (oy vector || 0))
     (z this + (oz vector || 0)).

Definition sub (this : t) (vector : obj) : t :=
  mk (x this - (ox vector || 0))
     (y this - (oy vector || 0))
     (z this - (oz vector || 0)).

Definition mult (this : t) (scalar : number) : t :=
  mk (x this * scalar) (y this * scalar) (z this * scalar).

Definition dot (this : t) (vector : obj) : number :=
  x this * (ox vector || 0) + y this * (oy vector || 0)
  + z this * (oz vector || 0).

Definition cross (this vector : t) : t :=
  let x' := y this * z vector - z this * y vector in
  let y' := z this * x vector - x this * z vector in
  let z' := x this * y vector - y this * x vector in
  new x' y' (VNum z').

Definition magnitudeSquared (this : t) : number :=
  Num.sq (x this) + Num.sq (y this) + Num.sq (z this).

Definition magnitude (this : t) : number :=
  Num.sqrt (magnitudeSquared this).

Definition normalise (this : t) : t :=
  let len := magnitude this in
  if negb (len === 0) then mult this (1 / len) else this.

Definition setMag (this : t) (magnitude : number) : t :=
  mult (normalise this) magnitude.

Definition heading (this : t) : number :=
  Num.atan2 (y this) (x this).

Definition setHeading (this : t) (angle : number) : t :=
  let m := magnitude this in
  mk (m * Num.cos angle) (m * Num.sin angle) (z this).

Definition rotate (this : t) (angle : number) : t :=
  let newHeading := heading this + angle in
  let mag := magnitude this in
  mk (Num.cos newHeading * mag) (Num.sin newHeading * mag) (z this).

Definition angleBetween (this vector : t) : number :=
  let magSqMult := magnitudeSquared this * magnitudeSquared vector in
  if magSqMult === 0 then NaN
  else
    let u := cross this vector in
    Num.atan2 (magnitude u) (dot this (of_t vector))
    * Num.sign (VNum (z u) || 1).

Definition copy (this : t) : t :=
  new (x this) (y this) (VNum (z this)).

Definition dist (this vector : t) : number :=
  let tempVector := copy vector in
  magnitude (sub tempVector (of_t this)).

Definition set (this : t) (x' y' z' : number) : t := mk x' y' z'.

Definition equals (this vector : t) : bool :=
  (x this === x vector) && (y this === y vector) && (z this === z vector).
End Vector.


(** ** Vector instances in a store

    An instance is reached through a reference; the in-place methods
    overwrite the fields kept at the receiver's reference, and [new]
    (hence [copy] and [cross]) allocates a reference not yet in use.
    Dereferencing a reference that was never allocated fails.  Each method
    reads what it needs when it is entered: a method's statements assign
    each field of the receiver from the same field of the receiver and of
    the argument, so that an argument aliasing the receiver changes
    nothing in this order. *)

Module Obj.
Abbreviation ref := nat (only parsing).

Definition M (A : Type) : Type := gmap nat Vector.t -> option (A * gmap nat Vector.t).

#[global] Instance M_ret : MRet M := fun A a s => Some (a, s).

#[global] Instance M_bind : MBind M := fun A B k m s =>
  match m s with
  | Some (a, s') => k a s'
  | None => None
  end.

Definition ret {A} (a : A) : M A := mret a.

Definition read (r : ref) : M Vector.t :=
  fun s => match s !! r with
           | Some v => Some (v, s)
           | None => None
           end.

Definition write (r : ref) (v : Vector.t) : M unit :=
  fun s => Some (tt, <[r := v]> s).

Definition alloc (v : Vector.t) : M ref :=
  fun s => let r := fresh (dom s) in Some (r, <[r := v]> s).

(** A method argument: an instance, or an object literal. *)
Inductive arg : Type :=
| Ref (r : ref)
| Lit (o : Vector.obj).

Definition read_arg (a : arg) : M Vector.obj :=
  match a with
  | Ref r => v ← read r; ret (Vector.of_t v)
  | Lit o => ret o
  end.

Definition new (x y : number) (z : value) : M ref :=
  alloc (Vector.new x y z).

Definition add (this : ref) (vector : arg) : M unit :=
  o ← read_arg vector; v ← read this; write this (Vector.add v o).

Definition sub (this : ref) (vector : arg) : M unit :=
  o ← read_arg vector; v ← read this; write this (Vector.sub v o).

Definition mult (this : ref) (scalar : number) : M unit :=
  v ← read this; write this (Vector.mult v scalar).

Definition dot (this : ref) (vector : arg) : M number :=
  o ← read_arg vector; v ← read this; ret (Vector.dot v o).

Definition cross (this vector : ref) : M ref :=
  v ← read this; w ← read vector; alloc (Vector.cross v w).

Definition magnitude (this : ref) : M number :=
  v ← read this; ret (Vector.magnitude v).

Definition normalise (this : ref) : M ref :=
  v ← read this; write this (Vector.normalise v) ;; ret this.

Definition setMag (this : ref) (magnitude : number) : M unit :=
  r ← normalise this; mult r magnitude.

Definition setHeading (this : ref) (angle : number) : M unit :=
  v ← read this; write this (Vector.setHeading v angle).

Definition rotate (this : ref) (angle : number) : M unit :=
  v ← read this; write this (Vector.rotate v angle).

Definition copy (this : ref) : M ref :=
  v ← read this; alloc (Vector.copy v).

Definition dist (this vector : ref) : M number :=
  tempVector ← copy vector;
  sub tempVector (Ref this) ;;
  magnitude tempVector.

Definition set (this : ref) (x y z : number) : M unit :=
  v ← read this; write this (Vector.set v x y z).

Definition equals (this vector : ref) : M bool :=
  v ← read this; w ← read vector; ret (Vector.equals v w).

(** The in-place operations of the class. *)
Inductive mutation : Type :=
| Add (vector : arg)
| Sub (vector : arg)
| Mult (scalar : number)
| Normalise
| SetMag (magnitude : number)
| SetHeading (angle : number)
| Rotate (angle : number)
| SetTo (x y z : number).

Definition mutate (this : ref) (m : mutation) : M unit :=
  match m with
  | Add a => add this a
  | Sub a => sub this a
  | Mult k => mult this k
  | Normalise => normalise this ;; ret tt
  | SetMag k => setMag this k
  | SetHeading a => setHeading this a
  | Rotate a => rotate this a
  | SetTo x y z => set this x y z
  end.

Fixpoint mutate_all (this : ref) (ms : list mutation) : M unit :=
  match ms with
  | [] => ret tt
  | m :: ms' => mutate this m ;; mutate_all this ms'
  end.

(** The instances an operation reads besides its receiver are allocated. *)
Definition arg_ok (s : gmap nat Vector.t) (a : arg) : Prop :=
  match a with
  | Ref r => is_Some (s !! r)
  | Lit _ => True
  end.

Definition mutation_ok (s : gmap nat Vector.t) (m : mutation) : Prop :=
  match m with
  | Add a | Sub a => arg_ok s a
  | _ => True
  end.
End Obj.

(** ** Counting loops

    [for (let i = i0; i < bound; i++) body], where [bound] is a number
    that the body leaves as it is.  The counter takes the values i0,
    i0 + 1, ..., which are exact, and the loop goes on as long as the
    counter is less than the bound.  It does not end when the bound is
    plus infinity, so that the loop is given fuel, one unit for each test
    of the condition: [None] is a loop that is still running when the fuel
    is spent, or whose body did not return. *)

Module Loop.
(** The counter as a number. *)
Definition num (i : nat) : number := Fin (INR i).

Fixpoint for_lt {St : Type} (fuel i : nat) (bound : number)
    (body : nat -> St -> option St) (s : St) : option St :=
  match fuel with
  | O => None
  | S fuel' =>
      if Num.lt (num i) bound then
        match body i s with
        | Some s' => for_lt fuel' (S i) bound body s'
        | None => None
        end
      else Some s
  end.
End Loop.

(** ** src/Drawing/Renderer.ts *)

Module Renderer.
(** What the renderer asks of its [CanvasRenderingContext2D]: property
    assignments and method calls, in the order they are issued. *)
Inductive op : Type :=
| set_fillStyle (color : string)
| set_strokeStyle (color : string)
| set_lineWidth (w : number)
| fillRect (x y w h : number)
| strokeRect (x y w h : number)
| beginPath
| closePath
| moveTo (x y : number)
| lineTo (x y : number)
| ctx_arc (x y radius startAngle endAngle : number)
| ctx_ellipse (x y rx ry rotation startAngle endAngle : number) (ccw : bool)
| ctx_fill
| ctx_stroke.

Record t : Type := mk {
  width : number;
  height : number;
  renderer : list op
}.

(** [constructor(width, height)]: a canvas of that size and a context on
    which nothing was issued yet. *)
Definition new (width height : number) : t := mk width height [].

Definition issue (o : op) (this : t) : t :=
  mk (width this) (height this) (renderer this ++ [o]).

Definition two_pi : number := (Fin 2 * Fin PI)%num.

Definition background (color : string) (this : t) : t :=
  let this := issue (set_fillStyle color) this in
  issue (fillRect 0 0 (width this) (height this)) this.

Definition fill (color : string) (this : t) : t :=
  issue (set_fillStyle color) this.

Definition noFill (this : t) : t :=
  issue (set_fillStyle "rgba(0, 0, 0, 0)") this.

Definition stroke (color : string) (this : t) : t :=
  issue (set_strokeStyle color) this.

Definition noStroke (this : t) : t :=
  issue (set_lineWidth 0) this.

Definition point (vector : Vector.t) (this : t) : t :=
  let this := issue beginPath this in
  let this := issue (ctx_arc (Vector.x vector) (Vector.y vector) 1 0 two_pi) this in
  let this := issue ctx_fill this in
  issue closePath this.

Definition line (start end_ : Vector.t) (this : t) : t :=
  let this := issue beginPath this in
  let this := issue (moveTo (Vector.x start) (Vector.y end_)) this in
  let this := issue (lineTo (Vector.x end_) (Vector.y end_)) this in
  let this := issue ctx_stroke this in
  issue closePath this.

Definition triangle (v1 v2 v3 : Vector.t) (this : t) : t :=
  let this := issue beginPath this in
  let this := issue (moveTo (Vector.x v1) (Vector.y v1)) this in
  let this := issue (lineTo (Vector.x v2) (Vector.y v2)) this in
  let this := issue (lineTo (Vector.x v3) (Vector.y v3)) this in
  let this := issue ctx_fill this in
  let this := issue ctx_stroke this in
  issue closePath this.

Definition rect (vector : Vector.t) (w h : number) (this : t) : t :=
  let this := issue (fillRect (Vector.x vector) (Vector.y vector) w h) this in
  issue (strokeRect (Vector.x vector) (Vector.y vector) w h) this.

Definition ellipse (vector : Vector.t) (w h : number) (this : t) : t :=
  let this := issue beginPath this in
  let this := issue (ctx_ellipse (Vector.x vector) (Vector.y vector)
                       (w / Fin 2) (h / Fin 2) 0 0 two_pi false) this in
  let this := issue ctx_fill this in
  let this := issue ctx_stroke this in
  issue closePath this.

(** [vertices[i]]: reading a field of the result throws when the index is
    out of bounds, which [None] stands for. *)
Definition index (vertices : list Vector.t) (i : nat) : option Vector.t :=
  vertices !! i.

(** The loop [for (let i = ...; i < vertices.length; i++)] with [n]
    iterations left. *)
Fixpoint irregularPolygon_loop (vertices : list Vector.t) (i n : nat)
    (this : t) : option t :=
  match n with
  | O => Some this
  | S n' =>
      match index vertices i with
      | Some v =>
          irregularPolygon_loop vertices (S i) n'
            (issue (lineTo (Vector.x v) (Vector.y v)) this)
      | None => None
      end
  end.

Definition irregularPolygon (vertices : list Vector.t) (this : t) : option t :=
  let this := issue beginPath this in
  match index vertices 0 with
  | None => None
  | Some v0 =>
      let this := issue (moveTo (Vector.x v0) (Vector.y v0)) this in
      match irregularPolygon_loop vertices 0 (length vertices) this with
      | None => None
      | Some this =>
          let this := issue ctx_fill this in
          let this := issue ctx_stroke this in
          Some (issue closePath this)
      end
  end.

(** [arc(vector, w, h, start, stop, mode = '')]: the last argument of the
    context's [ellipse] is its [counterclockwise] flag. *)
Definition arc (vector : Vector.t) (w h start stop : number) (mode : string)
    (this : t) : t :=
  let this := issue beginPath this in
  let this := issue (ctx_ellipse (Vector.x vector) (Vector.y vector)
                       (w / Fin 2) (h / Fin 2) 0 start stop
                       (String.eqb mode "OPEN")) this in
  let this := issue ctx_fill this in
  let this := issue ctx_stroke this in
  issue closePath this.

(** The vertex that [regularPolygon] computes at the counter [i]. *)
Definition regularPolygon_vertex (edges scalar : number) (i : nat) : Vector.t :=
  Vector.new (Num.cos ((two_pi / edges) * Loop.num i) * scalar)
             (Num.sin ((two_pi / edges) * Loop.num i) * scalar) undefined.

Definition regularPolygon (fuel : nat) (edges scalar : number) (this : t)
  : option t :=
  let this := issue beginPath this in
  let p := Vector.new 0 0 undefined in
  let this := issue (moveTo (Vector.x p) (Vector.y p)) this in
  match
    Loop.for_lt fuel 1 edges
      (fun i this =>
         let p := regularPolygon_vertex edges scalar i in
         Some (issue (lineTo (Vector.x p) (Vector.y p)) this))
      this
  with
  | None => None
  | Some this =>
      let this := issue ctx_fill this in
      let this := issue ctx_stroke this in
      Some (issue closePath this)
  end.
End Renderer.

(** ** src/Utilities/Helper.ts *)

Module Helper.
Local Open Scope num_scope.

Definition map (n start1 stop1 start2 stop2 : number) (withinBounds : bool)
  : number :=
  let newVal := (n - start1) / (stop1 - start1) * (stop2 - start2) + start2 in
  if negb withinBounds then newVal
  else if Num.lt start2 stop2 then Num.max (Num.min newVal stop2) start2
  else Num.max (Num.min newVal start2) stop2.
End Helper.

(** ** Definitions used to state the properties *)

Module Props.
(** A field that is absent or NaN, read as 0. *)
Definition zero_missing (v : value) : number :=
  match v with
  | undefined | VNum NaN => Num.zero
  | VNum n => n
  end.

(** The full vector of an argument object: its missing components are 0. *)
Definition complete (o : Vector.obj) : Vector.t :=
  Vector.mk (zero_missing (Vector.ox o)) (zero_missing (Vector.oy o))
            (zero_missing (Vector.oz o)).

(** The vector of three real components. *)
Definition vec (a b c : R) : Vector.t := Vector.mk (Fin a) (Fin b) (Fin c).

(** No component is NaN. *)
Definition no_NaN (v : Vector.t) : Prop :=
  Vector.x v <> NaN /\ Vector.y v <> NaN /\ Vector.z v <> NaN.

(** What [irregularPolygon] issues for the vertices it was given. *)
Definition polygon_path (v0 : Vector.t) (vertices : list Vector.t)
  : list Renderer.op :=
  [Renderer.beginPath; Renderer.moveTo (Vector.x v0) (Vector.y v0)]
  ++ List.map (fun v => Renderer.lineTo (Vector.x v) (Vector.y v)) vertices
  ++ [Renderer.ctx_fill; Renderer.ctx_stroke; Renderer.closePath].
End Props.

Module Geometry.
Local Open Scope R_scope.

(** The sign that [angleBetween] multiplies by, [Math.sign(uz || 1)], for a
    finite [uz]. *)
Definition sign_or_one (uz : R) : R :=
  if decide (uz = 0) then 1 else if decide (0 < uz) then 1 else -1.

(** The components of the cross product and the dot product. *)
Definition cross_x (b c b' c' : R) : R := b * c' - c * b'.
Definition cross_y (a c a' c' : R) : R := c * a' - a * c'.
Definition cross_z (a b a' b' : R) : R := a * b' - b * a'.
Definition norm2 (a b c : R) : R := a * a + b * b + c * c.
Definition dot3 (a b c a' b' c' : R) : R := a * a' + b * b' + c * c'.
End Geometry.


(** ** src/Utilities/Grid.ts *)

Module Grid.
Local Open Scope num_scope.

Record t : Type := mk {
  rows : number;
  cols : number;
  border : number;
  cell : number;
  grid : list Vector.t
}.

Definition new (rows cols border cell : number) : t :=
  mk rows cols border cell [].

(** [this.grid.push(v)] *)
Definition push (v : Vector.t) (this : t) : t :=
  mk (rows this) (cols this) (border this) (cell this) (grid this ++ [v]).

Definition verticalGrid (fuel : nat) (this : t) : option t :=
  Loop.for_lt fuel 0 (rows this)
    (fun i this =>
       Loop.for_lt fuel 0 (cols this)
         (fun j this =>
            let x := Loop.num i * cell this + border this in
            let y := Loop.num j * cell this + border this in
            Some (push (Vector.new x y undefined) this))
         this)
    this.

Definition horizontalGrid (fuel : nat) (this : t) : option t :=
  Loop.for_lt fuel 0 (cols this)
    (fun i this =>
       Loop.for_lt fuel 0 (rows this)
         (fun j this =>
            let x := Loop.num j * cell this + border this in
            let y := Loop.num i * cell this + border this in
            Some (push (Vector.new x y undefined) this))
         this)
    this.

(** The loop of [displayGrid], over the indices below [this.grid.length],
    with [n] iterations left. *)
Fixpoint displayGrid_loop (this : t) (i n : nat) (renderer : Renderer.t)
  : option Renderer.t :=
  match n with
  | O => Some renderer
  | S n' =>
      match Renderer.index (grid this) i with
      | Some v =>
          displayGrid_loop this (S i) n'
            (Renderer.rect v (cell this) (cell this) renderer)
      | None => None
      end
  end.

Definition displayGrid (this : t) (renderer : Renderer.t)
  : option Renderer.t :=
  displayGrid_loop this 0 (length (grid this)) renderer.
End Grid.

(** ** The calls of a sketch on its renderer *)

Module Api.
Inductive call : Type :=
| Background (color : string)
| Fill (color : string)
| NoFill
| Stroke (color : string)
| NoStroke
| Point (vector : Vector.t)
| Line (start end_ : Vector.t)
| Triangle (v1 v2 v3 : Vector.t)
| Rect (vector : Vector.t) (w h : number)
| Ellipse (vector : Vector.t) (w h : number)
| Arc (vector : Vector.t) (w h start stop : number) (mode : string)
| RegularPolygon (fuel : nat) (edges scalar : number)
| IrregularPolygon (vertices : list Vector.t)
| DisplayGrid (g : Grid.t).

Definition run (c : call) (r : Renderer.t) : option Renderer.t :=
  match c with
  | Background color => Some (Renderer.background color r)
  | Fill color => Some (Renderer.fill color r)
  | NoFill => Some (Renderer.noFill r)
  | Stroke color => Some (Renderer.stroke color r)
  | NoStroke => Some (Renderer.noStroke r)
  | Point v => Some (Renderer.point v r)
  | Line s e => Some (Renderer.line s e r)
  | Triangle v1 v2 v3 => Some (Renderer.triangle v1 v2 v3 r)
  | Rect v w h => Some (Renderer.rect v w h r)
  | Ellipse v w h => Some (Renderer.ellipse v w h r)
  | Arc v w h s e mode => Some (Renderer.arc v w h s e mode r)
  | RegularPolygon fuel edges scalar =>
      Renderer.regularPolygon fuel edges scalar r
  | IrregularPolygon vs => Renderer.irregularPolygon vs r
  | DisplayGrid g => Grid.displayGrid g r
  end.

Fixpoint run_all (cs : list call) (r : Renderer.t) : option Renderer.t :=
  match cs with
  | [] => Some r
  | c :: cs' =>
      match run c r with
      | Some r' => run_all cs' r'
      | None => None
      end
  end.

(** The renderer after more operations were issued. *)
Definition issued (r : Renderer.t) (ops : list Renderer.op) : Renderer.t :=
  Renderer.mk (Renderer.width r) (Renderer.height r)
    (Renderer.renderer r ++ ops).

(** The calls that draw a shape. *)
Definition is_shape (c : call) : bool :=
  match c with
  | Background _ | Fill _ | NoFill | Stroke _ | NoStroke => false
  | _ => true
  end.

(** An operation that assigns no property of the context. *)
Definition assigns_nothing (o : Renderer.op) : Prop :=
  match o with
  | Renderer.set_fillStyle _ | Renderer.set_strokeStyle _
  | Renderer.set_lineWidth _ => False
  | _ => True
  end.

(** The value last assigned to a property, among the operations issued. *)
Definition last_assigned {A : Type} (f : Renderer.op -> option A)
    (ops : list Renderer.op) : option A :=
  fold_left (fun acc o => match f o with Some a => Some a | None => acc end)
    ops None.

Definition fillStyle (ops : list Renderer.op) : option string :=
  last_assigned
    (fun o => match o with Renderer.set_fillStyle c => Some c | _ => None end)
    ops.

Definition strokeStyle (ops : list Renderer.op) : option string :=
  last_assigned
    (fun o => match o with Renderer.set_strokeStyle c => Some c | _ => None end)
    ops.

Definition lineWidth (ops : list Renderer.op) : option number :=
  last_assigned
    (fun o => match o with Renderer.set_lineWidth w => Some w | _ => None end)
    ops.
End Api.

(** ** The cells of a grid *)

Module Cells.
Local Open Scope num_scope.

(** The grid with more cells pushed. *)
Definition grow (g : Grid.t) (cells : list Vector.t) : Grid.t :=
  Grid.mk (Grid.rows g) (Grid.cols g) (Grid.border g) (Grid.cell g)
    (Grid.grid g ++ cells).

(** The cell whose [x] comes from the index [i] and whose [y] comes from
    the index [j]. *)
Definition at_ (g : Grid.t) (i j : nat) : Vector.t :=
  Vector.new (Loop.num i * Grid.cell g + Grid.border g)
             (Loop.num j * Grid.cell g + Grid.border g) undefined.

(** [r] times [c] cells, the first index in the outer position. *)
Definition vertical (g : Grid.t) (r c : nat) : list Vector.t :=
  flat_map (fun i => List.map (fun j => at_ g i j) (seq 0 c)) (seq 0 r).

(** [r] times [c] cells, the second index in the outer position. *)
Definition horizontal (g : Grid.t) (r c : nat) : list Vector.t :=
  flat_map (fun i => List.map (fun j => at_ g j i) (seq 0 r)) (seq 0 c).

(** What [rect] issues for a cell of the grid. *)
Definition rect_ops (g : Grid.t) (v : Vector.t) : list Renderer.op :=
  [Renderer.fillRect (Vector.x v) (Vector.y v) (Grid.cell g) (Grid.cell g);
   Renderer.strokeRect (Vector.x v) (Vector.y v) (Grid.cell g) (Grid.cell g)].
End Cells.

(** ** Binary64: the numbers of the running program

    The properties of [normalise], [setMag], [rotate] and [angleBetween]
    that depend on rounding, overflow, underflow or the sign of zero are
    stated on this second embedding of the same methods, in which a
    [number] is an IEEE-754 binary64 value (Rocq's primitive [float]) and
    [+], [-], [*], [/] and [Math.sqrt] are the correctly rounded
    operations; [x ** 2] is the rounded product of [x] with itself. *)

Module F64.
Import PrimFloat.
Local Open Scope float_scope.

(** [x ** 2], taken as the correctly rounded square [x * x]. *)
Definition sq (x : float) : float := x * x.

(** ToBoolean of a number: 0, -0 and NaN are falsy. *)
Definition truthy (x : float) : bool := negb (is_zero x || is_nan x).

(** [x || d] *)
Definition or_else (x d : float) : float := if truthy x then x else d.

(** [Math.sign] *)
Definition sign (x : float) : float :=
  if is_nan x then nan
  else if is_zero x then x
  else if 0 <? x then 1 else -1.

(** The zero of positive sign. *)
Definition is_pos_zero (x : float) : bool := is_zero x && negb (get_sign x).

(** [Math.cos], [Math.sin] and [Math.atan2] are approximated by the
    implementation, except at the arguments where ECMAScript fixes the
    result: these functions return that result, and [None] where the
    result is left to the implementation. *)
Definition cos (x : float) : option float :=
  if is_nan x || is_infinity x then Some nan
  else if is_zero x then Some 1
  else None.

Definition sin (x : float) : option float :=
  if is_nan x || is_infinity x then Some nan
  else if is_zero x then Some x
  else None.

Definition atan2 (y x : float) : option float :=
  if is_nan y || is_nan x then Some nan
  else if is_zero y then
    (if (0 <? x) || is_pos_zero x then Some y else None)
  else if is_finite y && (x =? infinity) then
    Some (if 0 <? y then zero else neg_zero)
  else None.
End F64.

Module Vector64.
Import PrimFloat.
Local Open Scope float_scope.

Record t : Type := mk { x : float; y : float; z : float }.

(** [constructor(x, y, z = 0)] *)
Definition new (x' y' : float) (z' : option float) : t :=
  mk x' y' (match z' with Some n => n | None => 0 end).

Definition mult (this : t) (scalar : float) : t :=
  mk (x this * scalar) (y this * scalar) (z this * scalar).

Definition dot (this vector : t) : float :=
  x this * F64.or_else (x vector) 0 + y this * F64.or_else (y vector) 0
  + z this * F64.or_else (z vector) 0.

Definition cross (this vector : t) : t :=
  let x' := y this * z vector - z this * y vector in
  let y' := z this * x vector - x this * z vector in
  let z' := x this * y vector - y this * x vector in
  new x' y' (Some z').

Definition magnitudeSquared (this : t) : float :=
  F64.sq (x this) + F64.sq (y this) + F64.sq (z this).

Definition magnitude (this : t) : float :=
  sqrt (magnitudeSquared this).

Definition normalise (this : t) : t :=
  let len := magnitude this in
  if negb (len =? 0) then mult this (1 / len) else this.

Definition setMag (this : t) (magnitude : float) : t :=
  mult (normalise this) magnitude.

Definition heading (this : t) : option float :=
  F64.atan2 (y this) (x this).

Definition rotate (this : t) (angle : float) : option t :=
  match heading this with
  | None => None
  | Some h =>
      let newHeading := h + angle in
      let mag := magnitude this in
      match F64.cos newHeading, F64.sin newHeading with
      | Some c, Some s => Some (mk (c * mag) (s * mag) (z this))
      | _, _ => None
      end
  end.

Definition angleBetween (this vector : t) : option float :=
  let magSqMult := magnitudeSquared this * magnitudeSquared vector in
  if magSqMult =? 0 then Some nan
  else
    let u := cross this vector in
    match F64.atan2 (magnitude u) (dot this vector) with
    | Some a => Some (a * F64.sign (F64.or_else (z u) 1))
    | None => None
    end.

Definition equals (this vector : t) : bool :=
  (x this =? x vector) && (y this =? y vector) && (z this =? z vector).

(** Every component is a zero, of either sign. *)
Definition is_zero_vector (v : t) : bool :=
  is_zero (x v) && is_zero (y v) && is_zero (z v).
End Vector64.

(** The instances in a store, as in [Obj]. *)
Module Obj64.
Definition M (A : Type) : Type :=
  gmap nat Vector64.t -> option (A * gmap nat Vector64.t).

#[global] Instance M_ret : MRet M := fun A a s => Some (a, s).

#[global] Instance M_bind : MBind M := fun A B k m s =>
  match m s with
  | Some (a, s') => k a s'
  | None => None
  end.

Definition read (r : nat) : M Vector64.t :=
  fun s => match s !! r with
           | Some v => Some (v, s)
           | None => None
           end.

Definition write (r : nat) (v : Vector64.t) : M unit :=
  fun s => Some (tt, <[r := v]> s).

Definition mult (this : nat) (scalar : PrimFloat.float) : M unit :=
  v ← read this; write this (Vector64.mult v scalar).

Definition normalise (this : nat) : M nat :=
  v ← read this; write this (Vector64.normalise v) ;; mret this.

Definition setMag (this : nat) (magnitude : PrimFloat.float) : M unit :=
  r ← normalise this; mult r magnitude.
End Obj64.
(** * Properties *)

(** ** Evaluating the number operations *)

Local Open Scope R_scope.

(** Decides the comparisons of real numbers left in the goal. *)
Ltac decide_reals :=
  repeat (first
    [ progress cbn
    | progress unfold Num.scale_inf, Num.inf
    | rewrite bool_decide_eq_true_2 by lra
    | rewrite bool_decide_eq_false_2 by lra
    | rewrite decide_True by lra
    | rewrite decide_False by lra ]).

Lemma Fin_inj (a b : R) : Fin a = Fin b -> a = b.
Proof. by intros [= ->]. Qed.

(** ** Renderer *)

Lemma line_issues (start end_ : Vector.t) (this : Renderer.t) :
  Renderer.renderer (Renderer.line start end_ this) =
  Renderer.renderer this ++
    [Renderer.beginPath;
     Renderer.moveTo (Vector.x start) (Vector.y end_);
     Renderer.lineTo (Vector.x end_) (Vector.y end_);
     Renderer.ctx_stroke;
     Renderer.closePath].
Proof.
  unfold Renderer.line, Renderer.issue; cbn.
  by rewrite <- !app_assoc.
Qed.

(** C1, at the segment drawn by the demo sketch, from (30, 75) to (58, 20):
    [line] begins the path at (30, 20), the [x] of the start point with the
    [y] of the end point, and not at the start point (30, 75); the segment
    it strokes is the horizontal one from (30, 20) to (58, 20). *)
Theorem line_moveTo_uses_end_y :
  let start := Vector.new (Fin 30) (Fin 75) undefined in
  let end_ := Vector.new (Fin 58) (Fin 20) undefined in
  Renderer.renderer
    (Renderer.line start end_ (Renderer.new (Fin 400) (Fin 500))) =
    [Renderer.beginPath;
     Renderer.moveTo (Fin 30) (Fin 20);
     Renderer.lineTo (Fin 58) (Fin 20);
     Renderer.ctx_stroke;
     Renderer.closePath]
  /\ Renderer.moveTo (Fin 30) (Fin 20)
     <> Renderer.moveTo (Vector.x start) (Vector.y start).
Proof.
  split; [reflexivity |].
  cbn. intros [= H]. lra.
Qed.

(** ** Helper *)

(** C4: [map(5, 0, 10, 0, 100, true)] is 50, [map(15, 0, 10, 0, 100, true)]
    is 100 and [map(15, 0, 10, 0, 100, false)] is 150. *)
Theorem map_scenarios :
  Helper.map (Fin 5) (Fin 0) (Fin 10) (Fin 0) (Fin 100) true = Fin 50
  /\ Helper.map (Fin 15) (Fin 0) (Fin 10) (Fin 0) (Fin 100) true = Fin 100
  /\ Helper.map (Fin 15) (Fin 0) (Fin 10) (Fin 0) (Fin 100) false = Fin 150.
Proof.
  unfold Helper.map. repeat split; decide_reals; f_equal; lra.
Qed.

Lemma irregularPolygon_loop_issues (vertices : list Vector.t) :
  forall (n i : nat) (this : Renderer.t),
    (i + n)%nat = length vertices ->
    Renderer.irregularPolygon_loop vertices i n this =
    Some (Renderer.mk (Renderer.width this) (Renderer.height this)
            (Renderer.renderer this ++
             List.map (fun v => Renderer.lineTo (Vector.x v) (Vector.y v))
               (drop i vertices))).
Proof.
  induction n as [| n IH]; intros i this Hlen; cbn.
  - rewrite drop_ge by lia. cbn. rewrite app_nil_r. by destruct this.
  - unfold Renderer.index.
    destruct (lookup_lt_is_Some_2 vertices i) as [v Hv]; [lia |].
    rewrite Hv, IH by lia. cbn.
    rewrite (drop_S _ _ _ Hv). cbn. by rewrite <- app_assoc.
Qed.

(** C10: [irregularPolygon] reads [vertices[0]] before its loop.  For a list
    with at least one vertex every index it reads is in bounds and the
    polygon is issued; for the empty list the first read, [vertices[0]], is
    out of bounds and nothing more happens. *)
Theorem irregularPolygon_bounds :
  (forall (v0 : Vector.t) (rest : list Vector.t) (this : Renderer.t),
      Renderer.index (v0 :: rest) 0 = Some v0
      /\ (forall i, (i < length (v0 :: rest))%nat ->
                    is_Some (Renderer.index (v0 :: rest) i))
      /\ Renderer.irregularPolygon (v0 :: rest) this =
         Some (Renderer.mk (Renderer.width this) (Renderer.height this)
                 (Renderer.renderer this
                  ++ Props.polygon_path v0 (v0 :: rest))))
  /\ (forall this : Renderer.t,
         Renderer.index [] 0 = None
         /\ Renderer.irregularPolygon [] this = None).
Proof.
  split; [| done].
  intros v0 rest this. split; [done |]. split.
  - intros i Hi. by apply lookup_lt_is_Some_2.
  - unfold Renderer.irregularPolygon.
    change (Renderer.index (v0 :: rest) 0) with (Some v0). cbv iota.
    rewrite irregularPolygon_loop_issues by done.
    cbn. unfold Props.polygon_path. cbn.
    unfold Renderer.issue. cbn. do 2 f_equal.
    by rewrite <- !app_assoc.
Qed.

(** ** Vector: arguments with missing components *)

Lemma or_else_zero_missing (v : value) :
  (VNum (Props.zero_missing v) || 0)%num = (v || 0)%num.
Proof.
  destruct v as [| [r | | |]]; cbn; try done;
    by case_bool_decide.
Qed.

(** C8: [add], [sub] and [dot] read a missing or NaN component of their
    argument as 0: the result with an argument object is the result with
    the full vector that has 0 for these components; so [add({x: 5})] is
    [add(new Vector(5, 0, 0))]. *)
Theorem missing_components_are_zero (v : Vector.t) (o : Vector.obj) :
  Vector.add v o = Vector.add v (Vector.of_t (Props.complete o))
  /\ Vector.sub v o = Vector.sub v (Vector.of_t (Props.complete o))
  /\ Vector.dot v o = Vector.dot v (Vector.of_t (Props.complete o))
  /\ Vector.add v (Vector.mkobj (VNum (Fin 5)) undefined undefined) =
     Vector.add v (Vector.of_t (Vector.new (Fin 5) (Fin 0) (VNum (Fin 0)))).
Proof.
  unfold Vector.add, Vector.sub, Vector.dot, Props.complete, Vector.of_t.
  cbn [Vector.ox Vector.oy Vector.oz Vector.x Vector.y Vector.z].
  rewrite !or_else_zero_missing. repeat split.
  cbn. by decide_reals.
Qed.

(** ** Vector: magnitude *)

Lemma sum_sq_nonneg (a b c : R) : 0 <= a * a + b * b + c * c.
Proof. nra. Qed.

Lemma magnitudeSquared_vec (a b c : R) :
  Vector.magnitudeSquared (Props.vec a b c) = Fin (a * a + b * b + c * c).
Proof. reflexivity. Qed.

Lemma magnitude_vec (a b c : R) :
  Vector.magnitude (Props.vec a b c) = Fin (sqrt (a * a + b * b + c * c)).
Proof.
  unfold Vector.magnitude. rewrite magnitudeSquared_vec. cbn.
  rewrite decide_False; [done |]. pose proof (sum_sq_nonneg a b c). lra.
Qed.

(** ** Vector: the in-place methods in the store *)

(** Running a method on the instance kept at a reference. *)
Ltac run H :=
  unfold Obj.normalise, Obj.setMag, Obj.mult, Obj.add, Obj.sub, Obj.rotate,
    Obj.setHeading, Obj.set, Obj.copy, Obj.equals, Obj.read_arg, Obj.ret,
    Obj.read, Obj.write, Obj.alloc, mbind, Obj.M_bind, mret, Obj.M_ret;
  cbn; rewrite ?H; cbn.

Lemma normalise_run (s : gmap nat Vector.t) (this : Obj.ref) (v : Vector.t) :
  s !! this = Some v ->
  Obj.normalise this s = Some (this, <[this := Vector.normalise v]> s).
Proof. intros H. by run H. Qed.

Lemma mult_run (s : gmap nat Vector.t) (this : Obj.ref) (v : Vector.t)
    (k : number) :
  s !! this = Some v ->
  Obj.mult this k s = Some (tt, <[this := Vector.mult v k]> s).
Proof. intros H. by run H. Qed.

Lemma setMag_run (s : gmap nat Vector.t) (this : Obj.ref) (v : Vector.t)
    (m : number) :
  s !! this = Some v ->
  Obj.setMag this m s =
  Some (tt, <[this := Vector.mult (Vector.normalise v) m]> s).
Proof.
  intros H. unfold Obj.setMag, mbind, Obj.M_bind.
  rewrite (normalise_run _ _ _ H).
  rewrite (mult_run _ _ (Vector.normalise v)) by apply lookup_insert_eq.
  by rewrite insert_insert_eq.
Qed.

(** ** Vector: angleBetween *)

Lemma or_else_zero_fin (a r : R) :
  (Fin a * (VNum (Fin r) || 0))%num = Fin (a * r).
Proof.
  cbn. case_bool_decide as Hr; cbn; [subst r |]; f_equal; lra.
Qed.

Lemma dot_vec (a b c a' b' c' : R) :
  Vector.dot (Props.vec a b c) (Vector.of_t (Props.vec a' b' c')) =
  Fin (Geometry.dot3 a b c a' b' c').
Proof.
  unfold Vector.dot, Props.vec, Vector.of_t.
  cbn [Vector.x Vector.y Vector.z Vector.ox Vector.oy Vector.oz].
  by rewrite !or_else_zero_fin.
Qed.

Lemma cross_vec (a b c a' b' c' : R) :
  Vector.cross (Props.vec a b c) (Props.vec a' b' c') =
  Props.vec (Geometry.cross_x b c b' c') (Geometry.cross_y a c a' c')
            (Geometry.cross_z a b a' b').
Proof. reflexivity. Qed.

Lemma sign_or_one_fin (uz : R) :
  Num.sign (VNum (Fin uz) || 1)%num = Fin (Geometry.sign_or_one uz).
Proof.
  unfold Geometry.sign_or_one. cbn.
  case_bool_decide as Hz; cbn.
  - rewrite (decide_True (P := uz = 0)) by done. by decide_reals.
  - rewrite !(decide_False (P := uz = 0)) by done.
    by destruct (decide (0 < uz)).
Qed.

(** [angleBetween] on two vectors of finite components whose magnitudes are
    not 0. *)
Lemma angleBetween_vec (a b c a' b' c' : R) :
  Geometry.norm2 a b c * Geometry.norm2 a' b' c' <> 0 ->
  Vector.angleBetween (Props.vec a b c) (Props.vec a' b' c') =
  Fin (Num.atan2R
         (sqrt (Geometry.norm2 (Geometry.cross_x b c b' c')
                  (Geometry.cross_y a c a' c') (Geometry.cross_z a b a' b')))
         (Geometry.dot3 a b c a' b' c')
       * Geometry.sign_or_one (Geometry.cross_z a b a' b')).
Proof.
  intros Hne. unfold Vector.angleBetween.
  rewrite !magnitudeSquared_vec. cbn [Num.mul Num.strict_eq Num.zero].
  rewrite bool_decide_eq_false_2 by exact Hne. cbv zeta.
  rewrite cross_vec, magnitude_vec, dot_vec.
  cbn [Props.vec Vector.z]. by rewrite sign_or_one_fin.
Qed.

Lemma atan2R_1_0 : Num.atan2R 1 0 = PI / 2.
Proof. unfold Num.atan2R. by decide_reals. Qed.

Lemma atan2R_0_neg1 : Num.atan2R 0 (-1) = PI.
Proof.
  unfold Num.atan2R. decide_reals.
  replace (0 / -1) with 0 by lra. rewrite atan_0. lra.
Qed.

Lemma sqrt_eq_1 (s : R) : s = 1 -> sqrt s = 1.
Proof. intros ->. apply sqrt_1. Qed.

Lemma sqrt_eq_0' (s : R) : s = 0 -> sqrt s = 0.
Proof. intros ->. apply sqrt_0. Qed.

(** The angle between the unit vectors along x and along z, either way. *)
Lemma angleBetween_x_z :
  Vector.angleBetween (Props.vec 1 0 0) (Props.vec 0 0 1) = Fin (PI / 2)
  /\ Vector.angleBetween (Props.vec 0 0 1) (Props.vec 1 0 0) = Fin (PI / 2).
Proof.
  split.
  - rewrite angleBetween_vec by (unfold Geometry.norm2; lra).
    unfold Geometry.norm2, Geometry.cross_x, Geometry.cross_y,
      Geometry.cross_z, Geometry.dot3, Geometry.sign_or_one.
    rewrite sqrt_eq_1 by lra. rewrite decide_True by lra.
    replace (1 * 0 + 0 * 0 + 0 * 1) with 0 by lra.
    rewrite atan2R_1_0. f_equal. lra.
  - rewrite angleBetween_vec by (unfold Geometry.norm2; lra).
    unfold Geometry.norm2, Geometry.cross_x, Geometry.cross_y,
      Geometry.cross_z, Geometry.dot3, Geometry.sign_or_one.
    rewrite sqrt_eq_1 by lra. rewrite decide_True by lra.
    replace (0 * 1 + 0 * 0 + 1 * 0) with 0 by lra.
    rewrite atan2R_1_0. f_equal. lra.
Qed.

(** The angle between two opposite vectors of the plane, either way. *)
Lemma angleBetween_opposite :
  Vector.angleBetween (Props.vec 1 0 0) (Props.vec (-1) 0 0) = Fin PI
  /\ Vector.angleBetween (Props.vec (-1) 0 0) (Props.vec 1 0 0) = Fin PI.
Proof.
  split.
  - rewrite angleBetween_vec by (unfold Geometry.norm2; lra).
    unfold Geometry.norm2, Geometry.cross_x, Geometry.cross_y,
      Geometry.cross_z, Geometry.dot3, Geometry.sign_or_one.
    rewrite sqrt_eq_0' by lra. rewrite decide_True by lra.
    replace (1 * -1 + 0 * 0 + 0 * 0) with (-1) by lra.
    rewrite atan2R_0_neg1. f_equal. lra.
  - rewrite angleBetween_vec by (unfold Geometry.norm2; lra).
    unfold Geometry.norm2, Geometry.cross_x, Geometry.cross_y,
      Geometry.cross_z, Geometry.dot3, Geometry.sign_or_one.
    rewrite sqrt_eq_0' by lra. rewrite decide_True by lra.
    replace (-1 * 1 + 0 * 0 + 0 * 0) with (-1) by lra.
    rewrite atan2R_0_neg1. f_equal. lra.
Qed.

(** C3, at the unit vectors along the x axis and along the z axis: both
    have magnitude 1, and [angleBetween] is PI / 2 in either order, which
    is not the negation of itself.  Likewise for the opposite vectors
    (1, 0, 0) and (-1, 0, 0) of the plane: PI in either order. *)
Theorem angleBetween_not_antisymmetric :
  let v1 := Props.vec 1 0 0 in
  let v2 := Props.vec 0 0 1 in
  let v3 := Props.vec (-1) 0 0 in
  (Vector.magnitude v1 = Fin 1 /\ Vector.magnitude v2 = Fin 1
   /\ Vector.magnitude v3 = Fin 1)
  /\ (Vector.angleBetween v1 v2 = Fin (PI / 2)
      /\ Vector.angleBetween v2 v1 = Fin (PI / 2)
      /\ Vector.angleBetween v1 v2 <> Num.neg (Vector.angleBetween v2 v1))
  /\ (Vector.angleBetween v1 v3 = Fin PI
      /\ Vector.angleBetween v3 v1 = Fin PI
      /\ Vector.angleBetween v1 v3 <> Num.neg (Vector.angleBetween v3 v1)).
Proof.
  cbv zeta.
  destruct angleBetween_x_z as [-> ->].
  destruct angleBetween_opposite as [-> ->].
  rewrite !magnitude_vec. pose proof PI_RGT_0.
  repeat split; try (f_equal; apply sqrt_eq_1; lra);
    cbn; intros E%Fin_inj; lra.
Qed.

(** ** Vector: copy and equals *)

Lemma copy_same_fields (v : Vector.t) : Vector.copy v = v.
Proof. by destruct v. Qed.

Lemma strict_eq_refl (n : number) : n <> NaN -> (n === n)%num = true.
Proof.
  destruct n; cbn; try done. intros _. by rewrite bool_decide_eq_true_2.
Qed.

Lemma equals_refl (v : Vector.t) : Props.no_NaN v -> Vector.equals v v = true.
Proof.
  intros (Hx & Hy & Hz). unfold Vector.equals.
  by rewrite !strict_eq_refl.
Qed.

Lemma copy_run (s : gmap nat Vector.t) (this : Obj.ref) (v : Vector.t) :
  s !! this = Some v ->
  Obj.copy this s =
  Some (fresh (dom s), <[fresh (dom s) := Vector.copy v]> s).
Proof. intros H. by run H. Qed.

Lemma fresh_not_allocated (s : gmap nat Vector.t) : s !! fresh (dom s) = None.
Proof. apply not_elem_of_dom, is_fresh. Qed.

Lemma arg_ok_insert (s : gmap nat Vector.t) (c : Obj.ref) (w : Vector.t)
    (a : Obj.arg) :
  Obj.arg_ok s a -> Obj.arg_ok (<[c := w]> s) a.
Proof.
  destruct a as [r | o]; cbn; [| done]. intros Hr.
  destruct (decide (c = r)) as [-> | Hne].
  - rewrite lookup_insert_eq. by eexists.
  - by rewrite lookup_insert_ne.
Qed.

Lemma mutation_ok_insert (s : gmap nat Vector.t) (c : Obj.ref) (w : Vector.t)
    (m : Obj.mutation) :
  Obj.mutation_ok s m -> Obj.mutation_ok (<[c := w]> s) m.
Proof. destruct m; cbn; try done; apply arg_ok_insert. Qed.

Lemma read_arg_run (s : gmap nat Vector.t) (a : Obj.arg) :
  Obj.arg_ok s a -> exists o, Obj.read_arg a s = Some (o, s).
Proof.
  destruct a as [r | o]; cbn.
  - intros [w Hw]. exists (Vector.of_t w). by run Hw.
  - intros _. by exists o.
Qed.

(** An in-place operation overwrites the receiver and nothing else. *)
Lemma mutate_run (s : gmap nat Vector.t) (c : Obj.ref) (w : Vector.t)
    (m : Obj.mutation) :
  s !! c = Some w -> Obj.mutation_ok s m ->
  exists w', Obj.mutate c m s = Some (tt, <[c := w']> s).
Proof.
  intros Hc Hok. destruct m as [a | a | k | | k | t | t | x y z]; cbn.
  - destruct (read_arg_run s a Hok) as [o Ho].
    exists (Vector.add w o). unfold Obj.add, mbind, Obj.M_bind.
    rewrite Ho. by run Hc.
  - destruct (read_arg_run s a Hok) as [o Ho].
    exists (Vector.sub w o). unfold Obj.sub, mbind, Obj.M_bind.
    rewrite Ho. by run Hc.
  - eexists. by apply mult_run.
  - eexists. unfold mbind, Obj.M_bind.
    by rewrite (normalise_run _ _ _ Hc).
  - eexists. by apply setMag_run.
  - eexists. by run Hc.
  - eexists. by run Hc.
  - eexists. by run Hc.
Qed.

Lemma mutate_all_frame (c v : Obj.ref) (vec : Vector.t) :
  c <> v ->
  forall (ms : list Obj.mutation) (s : gmap nat Vector.t) (w : Vector.t),
    s !! c = Some w -> s !! v = Some vec ->
    Forall (Obj.mutation_ok s) ms ->
    exists s2, Obj.mutate_all c ms s = Some (tt, s2) /\ s2 !! v = Some vec.
Proof.
  intros Hne. induction ms as [| m ms IH]; intros s w Hc Hv Hok.
  - by exists s.
  - apply Forall_cons in Hok as [Hm Hms].
    destruct (mutate_run s c w m Hc Hm) as [w' Hrun].
    destruct (IH (<[c := w']> s) w') as (s2 & Hs2 & Hv2).
    + apply lookup_insert_eq.
    + by rewrite lookup_insert_ne.
    + eapply Forall_impl; [exact Hms |]. intros m'. apply mutation_ok_insert.
    + exists s2. split; [| done].
      cbn. unfold mbind, Obj.M_bind. by rewrite Hrun.
Qed.

(** C9, for a vector with a NaN component: the copy has the same fields,
    and [equals] between the copy and the original is false. *)
Lemma copy_of_NaN_not_equals :
  let v := Vector.mk NaN (Fin 0) (Fin 0) in
  Vector.copy v = v /\ Vector.equals (Vector.copy v) v = false.
Proof. split; reflexivity. Qed.

(** C9, amended: [copy()] returns a new instance, at a reference other than
    the receiver's, with the components of the receiver; [equals] between
    the copy and the receiver is true when no component is NaN; and after
    any sequence of in-place operations on the copy the receiver still has
    its components. *)
Theorem copy_independent (s : gmap nat Vector.t) (v : Obj.ref)
    (vec : Vector.t) :
  s !! v = Some vec ->
  exists (c : Obj.ref) (s1 : gmap nat Vector.t),
    Obj.copy v s = Some (c, s1)
    /\ c <> v
    /\ s !! c = None
    /\ s1 !! c = Some vec
    /\ s1 !! v = Some vec
    /\ (Props.no_NaN vec -> Obj.equals c v s1 = Some (true, s1))
    /\ forall ms : list Obj.mutation,
        Forall (Obj.mutation_ok s1) ms ->
        exists s2, Obj.mutate_all c ms s1 = Some (tt, s2)
                   /\ s2 !! v = Some vec.
Proof.
  intros Hv.
  pose proof (fresh_not_allocated s) as Hfresh.
  assert (Hne : fresh (dom s) <> v)
    by (intros E; rewrite E in Hfresh; congruence).
  set (c := fresh (dom s)) in *.
  assert (Hc1 : <[c := vec]> s !! c = Some vec) by apply lookup_insert_eq.
  assert (Hv1 : <[c := vec]> s !! v = Some vec) by by rewrite lookup_insert_ne.
  exists c, (<[c := vec]> s).
  rewrite (copy_run _ _ _ Hv), copy_same_fields. fold c.
  repeat split; try done.
  - intros Hnan. run Hc1. rewrite Hv1. cbn. by rewrite equals_refl.
  - intros ms Hok. by apply (mutate_all_frame c v vec Hne ms _ vec).
Qed.

Lemma copy_independent_witness :
  exists (c : Obj.ref) (s1 : gmap nat Vector.t),
    Obj.copy 0%nat {[0%nat := Props.vec 1 2 3]} = Some (c, s1)
    /\ c <> 0%nat
    /\ ({[0%nat := Props.vec 1 2 3]} : gmap nat Vector.t) !! c = None
    /\ s1 !! c = Some (Props.vec 1 2 3)
    /\ s1 !! 0%nat = Some (Props.vec 1 2 3)
    /\ (Props.no_NaN (Props.vec 1 2 3) ->
        Obj.equals c 0%nat s1 = Some (true, s1))
    /\ forall ms : list Obj.mutation,
        Forall (Obj.mutation_ok s1) ms ->
        exists s2, Obj.mutate_all c ms s1 = Some (tt, s2)
                   /\ s2 !! 0%nat = Some (Props.vec 1 2 3).
Proof.
  apply (copy_independent {[0%nat := Props.vec 1 2 3]} 0%nat
           (Props.vec 1 2 3)).
  apply lookup_singleton_eq.
Defined.

(** * Further properties of the code *)

(** ** Vector: equals *)




(** ** Vector: heading and magnitude *)

Lemma atan2R_range (y x : R) : - PI < Num.atan2R y x <= PI.
Proof.
  pose proof PI_RGT_0 as Hpi. unfold Num.atan2R.
  destruct (decide (0 < x)) as [Hx | Hx].
  { pose proof (atan_bound (y / x)). lra. }
  destruct (decide (x < 0)) as [Hx' | Hx'].
  - destruct (decide (y < 0)) as [Hy | Hy].
    + assert (Ht : 0 < y / x).
      { replace (y / x) with ((- y) / (- x)) by (field; lra).
        apply Rdiv_lt_0_compat; lra. }
      pose proof (atan_increasing _ _ Ht) as Hinc. rewrite atan_0 in Hinc.
      pose proof (atan_bound (y / x)). lra.
    + assert (Ht : y / x <= 0).
      { replace (y / x) with (- (y / - x)) by (field; lra).
        assert (0 <= y / - x) by (apply Rle_mult_inv_pos; lra). lra. }
      assert (Hle : atan (y / x) <= 0).
      { destruct Ht as [Ht | Ht].
        - pose proof (atan_increasing _ _ Ht) as Hinc.
          rewrite atan_0 in Hinc. lra.
        - rewrite Ht, atan_0. lra. }
      pose proof (atan_bound (y / x)). lra.
  - repeat case_decide; lra.
Qed.

(** The magnitude of a vector is never negative and never minus infinity:
    it is NaN, plus infinity, or a finite number that is at least 0. *)
Theorem magnitude_never_negative (v : Vector.t) :
  Vector.magnitude v = NaN \/ Vector.magnitude v = PInf
  \/ exists r, Vector.magnitude v = Fin r /\ 0 <= r.
Proof.
  destruct v as [[a | | |] [b | | |] [c | | |]];
    try (left; reflexivity); try (right; left; reflexivity).
  right; right. change (Vector.mk (Fin a) (Fin b) (Fin c))
    with (Props.vec a b c).
  rewrite magnitude_vec. eexists. split; [done | apply sqrt_pos].
Qed.

(** ** Vector: angleBetween *)

Lemma atan2_range (y x : number) :
  Num.atan2 y x = NaN
  \/ exists r, Num.atan2 y x = Fin r /\ - PI <= r <= PI.
Proof.
  pose proof PI_RGT_0 as Hpi.
  destruct y as [b | | |], x as [a | | |]; cbn; try (by left); right.
  - exists (Num.atan2R b a). split; [done |].
    pose proof (atan2R_range b a). lra.
  - exists 0. split; [done | lra].
  - case_decide; eexists; (split; [done | lra]).
  - eexists; (split; [done | lra]).
  - eexists; (split; [done | lra]).
  - eexists; (split; [done | lra]).
  - eexists; (split; [done | lra]).
  - eexists; (split; [done | lra]).
  - eexists; (split; [done | lra]).
Qed.


(** The factor [Math.sign(u.z || 1)] is 1 or -1, whatever [u.z] is. *)
Lemma sign_or_one_unit (n : number) :
  Num.sign (VNum n || 1)%num = Fin 1 \/ Num.sign (VNum n || 1)%num = Fin (-1).
Proof.
  destruct n as [r | | |]; cbn; try (by left); try (by right).
  - case_bool_decide as Hr; cbn.
    + left. by decide_reals.
    + rewrite decide_False by done. case_decide; [by left | by right].
  - left. by decide_reals.
Qed.

(** [angleBetween] returns NaN or an angle between -PI and PI, for every
    pair of vectors. *)
Theorem angleBetween_range (v1 v2 : Vector.t) :
  Vector.angleBetween v1 v2 = NaN
  \/ exists r, Vector.angleBetween v1 v2 = Fin r /\ - PI <= r <= PI.
Proof.
  unfold Vector.angleBetween. destruct (_ === _)%num; [by left |].
  cbv zeta.
  destruct (atan2_range (Vector.magnitude (Vector.cross v1 v2))
              (Vector.dot v1 (Vector.of_t v2))) as [-> | (r & -> & Hr)];
    [by left |].
  right.
  destruct (sign_or_one_unit (Vector.z (Vector.cross v1 v2))) as [-> | ->];
    cbn; eexists; (split; [done | lra]).
Qed.
(** ** Vector: dist *)



(** ** Instances in the store: dist and the in-place operations *)

(** [dist] changes no instance that was allocated before the call, neither
    its receiver nor its argument, also when they are the same instance:
    it works on a copy of the argument. *)
Theorem dist_keeps_operands (s : gmap nat Vector.t) (this vector : Obj.ref)
    (v w : Vector.t) :
  s !! this = Some v -> s !! vector = Some w ->
  exists s',
    Obj.dist this vector s = Some (Vector.dist v w, s')
    /\ s' !! this = Some v /\ s' !! vector = Some w
    /\ forall r, is_Some (s !! r) -> s' !! r = s !! r.
Proof.
  intros Hv Hw.
  pose proof (fresh_not_allocated s) as Hfresh.
  set (c := fresh (dom s)) in *.
  assert (Hother : forall r x, s !! r = Some x -> c <> r).
  { intros r x Hr ->. congruence. }
  exists (<[c := Vector.sub (Vector.copy w) (Vector.of_t v)]> s).
  split; [| split; [| split]].
  - unfold Obj.dist, mbind, Obj.M_bind.
    rewrite (copy_run _ _ _ Hw). fold c.
    unfold Obj.sub, Obj.read_arg, Obj.read, Obj.write, Obj.magnitude,
      Obj.ret, mbind, Obj.M_bind, mret, Obj.M_ret.
    rewrite lookup_insert_ne by (by eapply Hother).
    rewrite Hv. rewrite !lookup_insert_eq.
    unfold Obj.read. rewrite lookup_insert_eq.
    by rewrite insert_insert_eq.
  - rewrite lookup_insert_ne; [done | by eapply Hother].
  - rewrite lookup_insert_ne; [done | by eapply Hother].
  - intros r [x Hr]. rewrite lookup_insert_ne; [done | by eapply Hother].
Qed.

Lemma dist_keeps_operands_witness :
  exists s',
    Obj.dist 0%nat 0%nat {[0%nat := Props.vec 3 4 0]} =
      Some (Vector.dist (Props.vec 3 4 0) (Props.vec 3 4 0), s')
    /\ s' !! 0%nat = Some (Props.vec 3 4 0)
    /\ s' !! 0%nat = Some (Props.vec 3 4 0)
    /\ forall r, is_Some (({[0%nat := Props.vec 3 4 0]} : gmap nat Vector.t)
                            !! r) ->
                 s' !! r = ({[0%nat := Props.vec 3 4 0]} : gmap nat Vector.t)
                             !! r.
Proof.
  apply (dist_keeps_operands {[0%nat := Props.vec 3 4 0]} 0%nat 0%nat
           (Props.vec 3 4 0) (Props.vec 3 4 0));
    apply lookup_singleton_eq.
Defined.

(** An in-place operation ([add], [sub], [mult], [normalise], [setMag],
    [setHeading], [rotate], [set]) succeeds on an allocated receiver,
    allocates nothing and changes no instance but the receiver. *)
Theorem in_place_operations_frame (s : gmap nat Vector.t) (this : Obj.ref)
    (v : Vector.t) (m : Obj.mutation) :
  s !! this = Some v -> Obj.mutation_ok s m ->
  exists s',
    Obj.mutate this m s = Some (tt, s')
    /\ dom s' = dom s
    /\ forall r, r <> this -> s' !! r = s !! r.
Proof.
  intros Hv Hok. destruct (mutate_run s this v m Hv Hok) as [v' Hrun].
  exists (<[this := v']> s). split; [done |]. split.
  - apply dom_insert_lookup_L. by eexists.
  - intros r Hr. by rewrite lookup_insert_ne.
Qed.

Lemma in_place_operations_frame_witness :
  exists s',
    Obj.mutate 0%nat (Obj.Add (Obj.Ref 0%nat)) {[0%nat := Props.vec 1 2 3]} =
      Some (tt, s')
    /\ dom s' = dom ({[0%nat := Props.vec 1 2 3]} : gmap nat Vector.t)
    /\ forall r, r <> 0%nat ->
                 s' !! r = ({[0%nat := Props.vec 1 2 3]} : gmap nat Vector.t)
                             !! r.
Proof.
  apply (in_place_operations_frame {[0%nat := Props.vec 1 2 3]} 0%nat
           (Props.vec 1 2 3) (Obj.Add (Obj.Ref 0%nat))).
  - apply lookup_singleton_eq.
  - cbn. rewrite lookup_singleton_eq. by eexists.
Defined.

(** ** Helper.map *)

Lemma clamp_range (x : number) (lo hi : R) :
  lo <= hi ->
  Num.max (Num.min x (Fin hi)) (Fin lo) = NaN
  \/ exists r, Num.max (Num.min x (Fin hi)) (Fin lo) = Fin r /\ lo <= r <= hi.
Proof.
  intros Hle. destruct x as [r | | |]; cbn; [| | | by left]; right.
  - case_bool_decide; cbn; case_bool_decide; eexists; (split; [done | lra]).
  - case_bool_decide; eexists; (split; [done | lra]).
  - eexists; (split; [done | lra]).
Qed.

(** With [withinBounds], [map] returns NaN or a value between [start2]
    and [stop2], whichever of the two is the smaller, for finite [start2]
    and [stop2] and for every [n], [start1] and [stop1], the infinities and
    NaN included. *)
Theorem map_within_bounds (n s1 e1 : number) (s2 e2 : R) :
  Helper.map n s1 e1 (Fin s2) (Fin e2) true = NaN
  \/ exists r,
       Helper.map n s1 e1 (Fin s2) (Fin e2) true = Fin r
       /\ Rmin s2 e2 <= r <= Rmax s2 e2.
Proof.
  unfold Helper.map.
  set (newVal := ((n - s1) / (e1 - s1) * (Fin e2 - Fin s2) + Fin s2)%num).
  cbn [negb Num.lt]. case_bool_decide as Hlt.
  - rewrite Rmin_left, Rmax_right by lra. apply clamp_range. lra.
  - rewrite Rmin_right, Rmax_left by lra. apply clamp_range. lra.
Qed.



(** ** Counting loops *)

Lemma lt_num_nat (k n : nat) :
  Num.lt (Loop.num k) (Loop.num n) = bool_decide (k < n)%nat.
Proof.
  unfold Loop.num. cbn. apply bool_decide_ext. split.
  - apply INR_lt.
  - apply lt_INR.
Qed.

(** A loop whose bound is plus infinity is still running whatever fuel it
    is given. *)
Lemma for_lt_infinite {St : Type} (body : nat -> St -> option St) :
  forall (fuel i : nat) (s : St), Loop.for_lt fuel i PInf body s = None.
Proof.
  induction fuel as [| fuel IH]; intros i s; cbn [Loop.for_lt]; [done |].
  change (Num.lt (Loop.num i) PInf) with true. cbv iota.
  destruct (body i s); [apply IH | done].
Qed.

(** A loop whose counter is not below the bound ends at once. *)
Lemma for_lt_done {St : Type} (body : nat -> St -> option St)
    (fuel i : nat) (bound : number) (s : St) :
  Num.lt (Loop.num i) bound = false ->
  Loop.for_lt (S fuel) i bound body s = Some s.
Proof. intros H. cbn [Loop.for_lt]. by rewrite H. Qed.

(** A loop up to the natural number [n], with a body that returns, runs
    the body at i, i + 1, ..., n - 1 when it has fuel for its n - i + 1
    tests. *)
Lemma for_lt_run {St : Type} (f : nat -> St -> St)
    (body : nat -> St -> option St) (n : nat) :
  (forall k s, body k s = Some (f k s)) ->
  forall (m i fuel : nat) (s : St),
    (i + m = n)%nat -> (m < fuel)%nat ->
    Loop.for_lt fuel i (Loop.num n) body s =
    Some (fold_left (fun s k => f k s) (seq i m) s).
Proof.
  intros Hbody. induction m as [| m IH]; intros i fuel s Hn Hfuel.
  - destruct fuel as [| fuel]; [lia |]. apply for_lt_done.
    rewrite lt_num_nat. apply bool_decide_eq_false_2. lia.
  - destruct fuel as [| fuel]; [lia |]. cbn [Loop.for_lt].
    rewrite lt_num_nat, bool_decide_eq_true_2 by lia.
    rewrite Hbody. rewrite IH by lia. done.
Qed.

(** What holds before a loop and is kept by its body holds when the loop
    has ended. *)
Lemma for_lt_invariant {St : Type} (P : St -> Prop)
    (body : nat -> St -> option St) (bound : number) :
  (forall i s s', P s -> body i s = Some s' -> P s') ->
  forall (fuel i : nat) (s s' : St),
    P s -> Loop.for_lt fuel i bound body s = Some s' -> P s'.
Proof.
  intros Hbody. induction fuel as [| fuel IH]; intros i s s' HP;
    cbn [Loop.for_lt]; [done |].
  destruct (Num.lt _ bound); [| by intros [= <-]].
  destruct (body i s) as [s1 |] eqn:Hb; [| done].
  apply IH. by eapply Hbody.
Qed.

(** ** Renderer: arc, ellipse and regularPolygon *)

(** The [mode] of [arc] only chooses the direction in which the context
    draws: "OPEN" asks for the counterclockwise direction, and every other
    mode, "CHORD" and "PIE" among them, draws what the default mode draws,
    which for the angles 0 and 2 PI is what [ellipse] draws. *)
Theorem arc_mode_is_direction (vector : Vector.t) (w h start stop : number)
    (mode : string) (this : Renderer.t) :
  Renderer.renderer (Renderer.arc vector w h start stop "OPEN" this) =
    Renderer.renderer this ++
      [Renderer.beginPath;
       Renderer.ctx_ellipse (Vector.x vector) (Vector.y vector)
         (w / Fin 2) (h / Fin 2) 0 start stop true;
       Renderer.ctx_fill; Renderer.ctx_stroke; Renderer.closePath]
  /\ (mode <> "OPEN"%string ->
      Renderer.arc vector w h start stop mode this =
      Renderer.arc vector w h start stop "" this)
  /\ Renderer.arc vector w h start stop "CHORD" this =
     Renderer.arc vector w h start stop "PIE" this
  /\ Renderer.ellipse vector w h this =
     Renderer.arc vector w h 0 Renderer.two_pi "" this.
Proof.
  split; [| split; [| split]]; try reflexivity.
  - unfold Renderer.arc, Renderer.issue. cbn. by rewrite <- !app_assoc.
  - intros Hmode. unfold Renderer.arc.
    apply String.eqb_neq in Hmode. by rewrite Hmode.
Qed.

Lemma arc_mode_is_direction_witness :
  Renderer.arc (Props.vec 200 55 0) (Fin 50) (Fin 50) (Fin 0) (Fin 4)
    "CHORD" (Renderer.new (Fin 400) (Fin 500)) =
  Renderer.arc (Props.vec 200 55 0) (Fin 50) (Fin 50) (Fin 0) (Fin 4)
    "" (Renderer.new (Fin 400) (Fin 500)).
Proof.
  destruct (arc_mode_is_direction (Props.vec 200 55 0) (Fin 50) (Fin 50)
              (Fin 0) (Fin 4) "CHORD" (Renderer.new (Fin 400) (Fin 500)))
    as (_ & H & _).
  apply H. discriminate.
Defined.

Lemma fold_issue (f : nat -> Renderer.op) (l : list nat) (this : Renderer.t) :
  fold_left (fun s k => Renderer.issue (f k) s) l this =
  Renderer.mk (Renderer.width this) (Renderer.height this)
    (Renderer.renderer this ++ List.map f l).
Proof.
  revert this. induction l as [| k l IH]; intros this; cbn.
  - rewrite app_nil_r. by destruct this.
  - rewrite IH. cbn. by rewrite <- app_assoc.
Qed.

(** [regularPolygon(n, s)] for a whole number n >= 1 returns once it has
    fuel for its n tests.  Its path starts at the point (0, 0), the centre,
    and continues with the n - 1 vertices of the counters 1, ..., n - 1, in
    this order, before fill, stroke and closePath. *)
Theorem regularPolygon_path (n fuel : nat) (scalar : number)
    (this : Renderer.t) :
  (1 <= n)%nat -> (n <= fuel)%nat ->
  Renderer.regularPolygon fuel (Loop.num n) scalar this =
    Some (Renderer.mk (Renderer.width this) (Renderer.height this)
            (Renderer.renderer this
             ++ [Renderer.beginPath; Renderer.moveTo (Fin 0) (Fin 0)]
             ++ List.map
                  (fun i =>
                     let p :=
                       Renderer.regularPolygon_vertex (Loop.num n) scalar i in
                     Renderer.lineTo (Vector.x p) (Vector.y p))
                  (seq 1 (n - 1))
             ++ [Renderer.ctx_fill; Renderer.ctx_stroke;
                 Renderer.closePath])).
Proof.
  intros Hn Hfuel. unfold Renderer.regularPolygon.
  rewrite (for_lt_run
             (fun i this =>
                Renderer.issue
                  (Renderer.lineTo
                     (Vector.x
                        (Renderer.regularPolygon_vertex (Loop.num n)
                           scalar i))
                     (Vector.y
                        (Renderer.regularPolygon_vertex (Loop.num n)
                           scalar i))) this) _ n
             ltac:(done) (n - 1) 1 fuel) by lia.
  rewrite (fold_issue
             (fun i =>
                Renderer.lineTo
                  (Vector.x
                     (Renderer.regularPolygon_vertex (Loop.num n) scalar i))
                  (Vector.y
                     (Renderer.regularPolygon_vertex (Loop.num n)
                        scalar i)))).
  unfold Renderer.issue. cbn. do 2 f_equal.
  by rewrite <- !app_assoc.
Qed.

Lemma regularPolygon_path_witness :
  Renderer.regularPolygon 3 (Loop.num 3) (Fin 10)
    (Renderer.new (Fin 400) (Fin 500)) =
    Some (Renderer.mk (Fin 400) (Fin 500)
            ([] ++ [Renderer.beginPath; Renderer.moveTo (Fin 0) (Fin 0)]
             ++ List.map
                  (fun i =>
                     let p :=
                       Renderer.regularPolygon_vertex (Loop.num 3) (Fin 10) i
                     in Renderer.lineTo (Vector.x p) (Vector.y p))
                  (seq 1 (3 - 1))
             ++ [Renderer.ctx_fill; Renderer.ctx_stroke;
                 Renderer.closePath])).
Proof.
  apply (regularPolygon_path 3 3 (Fin 10)
           (Renderer.new (Fin 400) (Fin 500))); lia.
Defined.

(** [regularPolygon] with an infinite number of edges does not return; with
    a number of edges that is NaN or at most 1 it draws no edge: its path
    is the single point (0, 0). *)
Theorem regularPolygon_no_edges (fuel : nat) (edges scalar : number)
    (this : Renderer.t) :
  Renderer.regularPolygon fuel PInf scalar this = None
  /\ (Num.lt (Fin 1) edges = false ->
      Renderer.regularPolygon (S fuel) edges scalar this =
      Some (Renderer.mk (Renderer.width this) (Renderer.height this)
              (Renderer.renderer this
               ++ [Renderer.beginPath; Renderer.moveTo (Fin 0) (Fin 0);
                   Renderer.ctx_fill; Renderer.ctx_stroke;
                   Renderer.closePath]))).
Proof.
  split.
  - unfold Renderer.regularPolygon. by rewrite for_lt_infinite.
  - intros Hlt. unfold Renderer.regularPolygon.
    rewrite for_lt_done by (unfold Loop.num; by rewrite INR_1).
    unfold Renderer.issue. cbn. do 2 f_equal. by rewrite <- !app_assoc.
Qed.

Lemma regularPolygon_no_edges_witness :
  Renderer.regularPolygon 1 NaN (Fin 10) (Renderer.new (Fin 400) (Fin 500)) =
  Some (Renderer.mk (Fin 400) (Fin 500)
          ([] ++ [Renderer.beginPath; Renderer.moveTo (Fin 0) (Fin 0);
                  Renderer.ctx_fill; Renderer.ctx_stroke;
                  Renderer.closePath])).
Proof.
  destruct (regularPolygon_no_edges 0 NaN (Fin 10)
              (Renderer.new (Fin 400) (Fin 500))) as [_ H].
  apply H. reflexivity.
Defined.

(** ** Renderer: styles and shapes *)

Lemma last_assigned_acc {A : Type} (f : Renderer.op -> option A)
    (ops : list Renderer.op) :
  forall acc : option A,
    fold_left (fun acc o => match f o with Some a => Some a | None => acc end)
      ops acc =
    match Api.last_assigned f ops with Some x => Some x | None => acc end.
Proof.
  unfold Api.last_assigned.
  induction ops as [| o ops IH]; intros acc; cbn; [done |].
  rewrite IH. rewrite (IH (match f o with Some a => Some a | None => None end)).
  destruct (fold_left _ ops None); [done |]. by destruct (f o).
Qed.

Lemma last_assigned_app {A : Type} (f : Renderer.op -> option A)
    (a b : list Renderer.op) :
  Api.last_assigned f (a ++ b) =
  match Api.last_assigned f b with
  | Some x => Some x
  | None => Api.last_assigned f a
  end.
Proof.
  unfold Api.last_assigned at 1. rewrite fold_left_app.
  apply last_assigned_acc.
Qed.

Lemma last_assigned_nothing {A : Type} (f : Renderer.op -> option A)
    (ops : list Renderer.op) :
  (forall o, Api.assigns_nothing o -> f o = None) ->
  Forall Api.assigns_nothing ops -> Api.last_assigned f ops = None.
Proof.
  intros Hf. induction 1 as [| o ops Ho _ IH]; [done |].
  change (o :: ops) with ([o] ++ ops). rewrite last_assigned_app, IH.
  unfold Api.last_assigned. cbn. by rewrite Hf.
Qed.

Lemma issued_issued (r : Renderer.t) (a b : list Renderer.op) :
  Api.issued (Api.issued r a) b = Api.issued r (a ++ b).
Proof. unfold Api.issued. cbn. by rewrite app_assoc. Qed.

Lemma issued_nil (r : Renderer.t) : Api.issued r [] = r.
Proof. unfold Api.issued. rewrite app_nil_r. by destruct r. Qed.

Lemma displayGrid_loop_issues (g : Grid.t) :
  forall (n i : nat) (r : Renderer.t),
    (i + n)%nat = length (Grid.grid g) ->
    Grid.displayGrid_loop g i n r =
    Some (Api.issued r (flat_map (Cells.rect_ops g) (drop i (Grid.grid g)))).
Proof.
  induction n as [| n IH]; intros i r Hlen; cbn.
  - rewrite drop_ge by lia. by rewrite issued_nil.
  - unfold Renderer.index.
    destruct (lookup_lt_is_Some_2 (Grid.grid g) i) as [v Hv]; [lia |].
    rewrite Hv, IH by lia. rewrite (drop_S _ _ _ Hv). cbn.
    unfold Renderer.rect, Renderer.issue, Api.issued. cbn.
    do 2 f_equal. by rewrite <- !app_assoc.
Qed.

(** What a call issues: a style call its assignment, and a shape call
    operations that assign nothing. *)
Lemma run_issues (c : Api.call) (r r' : Renderer.t) :
  Api.run c r = Some r' ->
  exists ops,
    r' = Api.issued r ops
    /\ match c with
       | Api.Background color =>
           ops = [Renderer.set_fillStyle color;
                  Renderer.fillRect 0%num 0%num (Renderer.width r)
                    (Renderer.height r)]
       | Api.Fill color => ops = [Renderer.set_fillStyle color]
       | Api.NoFill => ops = [Renderer.set_fillStyle "rgba(0, 0, 0, 0)"]
       | Api.Stroke color => ops = [Renderer.set_strokeStyle color]
       | Api.NoStroke => ops = [Renderer.set_lineWidth 0%num]
       | _ => Forall Api.assigns_nothing ops
       end.
Proof.
  destruct c; cbn; try (intros [= <-]; eexists; split;
    [unfold Api.issued, Renderer.background, Renderer.fill, Renderer.noFill,
       Renderer.stroke, Renderer.noStroke, Renderer.point, Renderer.line,
       Renderer.triangle, Renderer.rect, Renderer.ellipse, Renderer.arc,
       Renderer.issue; cbn; rewrite <- ?app_assoc; reflexivity
    | try reflexivity; repeat constructor]).
  - (* regularPolygon *)
    unfold Renderer.regularPolygon.
    destruct (Loop.for_lt _ _ _ _ _) as [r1 |] eqn:Hloop; [| done].
    intros [= <-].
    apply (for_lt_invariant
             (fun r1 => exists ops,
                  r1 = Api.issued r ops /\ Forall Api.assigns_nothing ops))
      in Hloop.
    + destruct Hloop as (ops & -> & Hops).
      exists (ops ++ [Renderer.ctx_fill; Renderer.ctx_stroke;
                      Renderer.closePath]).
      split.
      * unfold Renderer.issue, Api.issued. cbn. by rewrite <- !app_assoc.
      * apply Forall_app. split; [done | repeat constructor].
    + intros i s s' (ops & -> & Hops) [= <-].
      eexists (ops ++ [_]). split.
      * unfold Renderer.issue, Api.issued. cbn. by rewrite <- !app_assoc.
      * apply Forall_app. split; [done | repeat constructor].
    + exists [Renderer.beginPath; Renderer.moveTo 0%num 0%num]. split.
      * unfold Renderer.issue, Api.issued. cbn. by rewrite <- !app_assoc.
      * repeat constructor.
  - (* irregularPolygon *)
    destruct vertices as [| v0 rest]; [done |].
    unfold Renderer.irregularPolygon.
    change (Renderer.index (v0 :: rest) 0) with (Some v0). cbv iota.
    rewrite irregularPolygon_loop_issues by done. intros [= <-].
    eexists. split.
    + unfold Renderer.issue, Api.issued. cbn. rewrite <- !app_assoc. cbn.
      reflexivity.
    + repeat constructor. apply Forall_app. split; [| repeat constructor].
      clear. induction rest as [| v rest IH]; cbn; by constructor.
  - (* displayGrid *)
    unfold Grid.displayGrid. rewrite displayGrid_loop_issues by done.
    intros [= <-]. eexists. split; [done |].
    induction (Grid.grid g) as [| v l IH]; cbn; repeat constructor.
    exact IH.
Qed.

Lemma fillStyle_nothing (ops : list Renderer.op) :
  Forall Api.assigns_nothing ops ->
  Api.fillStyle ops = None /\ Api.strokeStyle ops = None
  /\ Api.lineWidth ops = None.
Proof.
  intros H. repeat split; apply last_assigned_nothing; try done;
    by intros [].
Qed.

(** A sequence of shape calls that returns has only added operations to
    those issued before, on a canvas of the same size, and has assigned no
    property of the context: the fill style, the stroke style and the line
    width last assigned are the ones that were last assigned before. *)
Theorem shapes_keep_styles (cs : list Api.call) (r r' : Renderer.t) :
  Forall (fun c => Api.is_shape c = true) cs ->
  Api.run_all cs r = Some r' ->
  Renderer.width r' = Renderer.width r
  /\ Renderer.height r' = Renderer.height r
  /\ (exists ops, Renderer.renderer r' = Renderer.renderer r ++ ops)
  /\ Api.fillStyle (Renderer.renderer r') = Api.fillStyle (Renderer.renderer r)
  /\ Api.strokeStyle (Renderer.renderer r')
     = Api.strokeStyle (Renderer.renderer r)
  /\ Api.lineWidth (Renderer.renderer r') = Api.lineWidth (Renderer.renderer r).
Proof.
  intros Hshapes. revert r.
  induction Hshapes as [| c cs Hc _ IH]; intros r; cbn.
  - intros [= <-]. repeat split; try done. exists []. by rewrite app_nil_r.
  - destruct (Api.run c r) as [r1 |] eqn:Hrun; [| done]. intros Hall.
    destruct (IH r1 Hall) as (Hw & Hh & (ops' & Hops') & Hf & Hs & Hl).
    destruct (run_issues c r r1 Hrun) as (ops & -> & Hkind).
    assert (Hnothing : Forall Api.assigns_nothing ops)
      by (by destruct c).
    destruct (fillStyle_nothing ops Hnothing) as (Hf0 & Hs0 & Hl0).
    unfold Api.issued in *.
    cbn [Renderer.renderer Renderer.width Renderer.height] in *.
    unfold Api.fillStyle, Api.strokeStyle, Api.lineWidth in *.
    rewrite last_assigned_app, Hf0 in Hf.
    rewrite last_assigned_app, Hs0 in Hs.
    rewrite last_assigned_app, Hl0 in Hl.
    repeat split; try done.
    exists (ops ++ ops'). by rewrite Hops', app_assoc.
Qed.

Lemma shapes_keep_styles_witness :
  Api.fillStyle
    (Renderer.renderer
       (Renderer.rect (Props.vec 1 2 0) (Fin 10) (Fin 10)
          (Renderer.fill "red" (Renderer.new (Fin 400) (Fin 500)))))
  = Api.fillStyle
      (Renderer.renderer
         (Renderer.fill "red" (Renderer.new (Fin 400) (Fin 500)))).
Proof.
  destruct (shapes_keep_styles [Api.Rect (Props.vec 1 2 0) (Fin 10) (Fin 10)]
              (Renderer.fill "red" (Renderer.new (Fin 400) (Fin 500)))
              (Renderer.rect (Props.vec 1 2 0) (Fin 10) (Fin 10)
                 (Renderer.fill "red" (Renderer.new (Fin 400) (Fin 500)))))
    as (_ & _ & _ & H & _).
  - by repeat constructor.
  - reflexivity.
  - exact H.
Defined.

(** [background(c)] assigns the fill style: the shapes drawn after it are
    filled with [c], whatever colour [fill] was given before.  And no call
    assigns a line width other than 0: once [noStroke()] has set it to 0,
    it is 0 after every sequence of calls, [stroke(c)] included. *)
Theorem background_sets_fill_and_noStroke_stays (cs : list Api.call)
    (color color' : string) (r r' : Renderer.t) :
  Api.fillStyle
    (Renderer.renderer (Renderer.background color (Renderer.fill color' r)))
  = Some color
  /\ (Api.run_all cs (Renderer.noStroke r) = Some r' ->
      Api.lineWidth (Renderer.renderer r') = Some Num.zero).
Proof.
  split.
  - unfold Renderer.background, Renderer.fill, Renderer.issue.
    cbn [Renderer.renderer Renderer.width Renderer.height].
    unfold Api.fillStyle. rewrite <- app_assoc, last_assigned_app.
    reflexivity.
  - assert (Hstart : Api.lineWidth (Renderer.renderer (Renderer.noStroke r))
                     = Some Num.zero).
    { unfold Renderer.noStroke, Renderer.issue.
      cbn [Renderer.renderer]. unfold Api.lineWidth.
      by rewrite last_assigned_app. }
    revert Hstart. generalize (Renderer.noStroke r). clear r.
    induction cs as [| c cs IH]; intros r Hstart; cbn.
    + by intros [= <-].
    + destruct (Api.run c r) as [r1 |] eqn:Hrun; [| done].
      apply IH. destruct (run_issues c r r1 Hrun) as (ops & -> & Hkind).
      unfold Api.issued. cbn [Renderer.renderer].
      unfold Api.lineWidth in *. rewrite last_assigned_app, Hstart.
      destruct c; subst; try reflexivity;
        destruct (fillStyle_nothing ops Hkind) as (_ & _ & Hl0);
        unfold Api.lineWidth in Hl0; by rewrite Hl0.
Qed.

Lemma background_sets_fill_and_noStroke_stays_witness :
  Api.lineWidth
    (Renderer.renderer
       (Renderer.stroke "black"
          (Renderer.noStroke (Renderer.new (Fin 400) (Fin 500)))))
  = Some Num.zero.
Proof.
  destruct (background_sets_fill_and_noStroke_stays [Api.Stroke "black"]
              "white" "red" (Renderer.new (Fin 400) (Fin 500))
              (Renderer.stroke "black"
                 (Renderer.noStroke (Renderer.new (Fin 400) (Fin 500)))))
    as [_ H].
  apply H. reflexivity.
Defined.

(** ** Grid *)

Lemma grow_nil (g : Grid.t) : Cells.grow g [] = g.
Proof. unfold Cells.grow. rewrite app_nil_r. by destruct g. Qed.

Lemma grow_grow (g : Grid.t) (a b : list Vector.t) :
  Cells.grow (Cells.grow g a) b = Cells.grow g (a ++ b).
Proof. unfold Cells.grow. cbn. by rewrite app_assoc. Qed.

Lemma inner_loop (cellf : Grid.t -> nat -> Vector.t) (g : Grid.t)
    (c fuel : nat) :
  (forall cells j, cellf (Cells.grow g cells) j = cellf g j) ->
  forall (m j : nat) (fuel' : nat) (cells : list Vector.t),
    (j + m = c)%nat -> (m < fuel')%nat ->
    Loop.for_lt fuel' j (Loop.num c)
      (fun j this => Some (Grid.push (cellf this j) this))
      (Cells.grow g cells) =
    Some (Cells.grow g (cells ++ List.map (cellf g) (seq j m))).
Proof.
  intros Hcell. induction m as [| m IH]; intros j fuel' cells Hc Hfuel.
  - destruct fuel' as [| fuel']; [lia |]. rewrite for_lt_done.
    + cbn. by rewrite app_nil_r.
    + rewrite lt_num_nat. apply bool_decide_eq_false_2. lia.
  - destruct fuel' as [| fuel']; [lia |]. cbn [Loop.for_lt].
    rewrite lt_num_nat, bool_decide_eq_true_2 by lia.
    change (Grid.push (cellf (Cells.grow g cells) j) (Cells.grow g cells))
      with (Cells.grow (Cells.grow g cells) [cellf (Cells.grow g cells) j]).
    rewrite grow_grow, Hcell, IH by lia. cbn.
    by rewrite <- app_assoc.
Qed.

Lemma nested_loops (cellf : Grid.t -> nat -> nat -> Vector.t)
    (inner_bound : Grid.t -> number) (g : Grid.t) (n_out n_in fuel : nat) :
  (forall cells i j, cellf (Cells.grow g cells) i j = cellf g i j) ->
  (forall cells, inner_bound (Cells.grow g cells) = Loop.num n_in) ->
  (n_in < fuel)%nat ->
  forall (m i : nat) (fuel' : nat) (cells : list Vector.t),
    (i + m = n_out)%nat -> (m < fuel')%nat ->
    Loop.for_lt fuel' i (Loop.num n_out)
      (fun i this =>
         Loop.for_lt fuel 0 (inner_bound this)
           (fun j this => Some (Grid.push (cellf this i j) this)) this)
      (Cells.grow g cells) =
    Some (Cells.grow g
            (cells ++ flat_map (fun i => List.map (cellf g i) (seq 0 n_in))
                        (seq i m))).
Proof.
  intros Hcell Hbound Hin.
  induction m as [| m IH]; intros i fuel' cells Hout Hfuel.
  - destruct fuel' as [| fuel']; [lia |]. rewrite for_lt_done.
    + cbn. by rewrite app_nil_r.
    + rewrite lt_num_nat. apply bool_decide_eq_false_2. lia.
  - destruct fuel' as [| fuel']; [lia |]. cbn [Loop.for_lt].
    rewrite lt_num_nat, bool_decide_eq_true_2 by lia.
    rewrite Hbound.
    rewrite (inner_loop (fun this j => cellf this i j) g n_in fuel
               ltac:(intros; apply Hcell) n_in 0 fuel cells) by lia.
    rewrite IH by lia. cbn. by rewrite <- app_assoc.
Qed.

Lemma length_cells (f : nat -> nat -> Vector.t) (r c : nat) :
  forall i0,
    length (flat_map (fun i => List.map (f i) (seq 0 c)) (seq i0 r))
    = (r * c)%nat.
Proof.
  induction r as [| r IH]; intros i0; cbn; [done |].
  rewrite length_app, length_map, length_seq, IH. done.
Qed.

Lemma lookup_cells (f : nat -> nat -> Vector.t) (c : nat) :
  forall (r i0 i j : nat),
    (i < r)%nat -> (j < c)%nat ->
    flat_map (fun i => List.map (f i) (seq 0 c)) (seq i0 r)
      !! (i * c + j)%nat
    = Some (f (i0 + i)%nat j).
Proof.
  induction r as [| r IH]; intros i0 i j Hi Hj; [lia |]. cbn.
  destruct i as [| i].
  - rewrite lookup_app_l by (rewrite length_map, length_seq; lia).
    cbn. rewrite Nat.add_0_r.
    change (List.map (f i0) (seq 0 c)) with (f i0 <$> seq 0 c).
    rewrite list_lookup_fmap, lookup_seq_lt by done. done.
  - rewrite lookup_app_r by (rewrite length_map, length_seq; lia).
    rewrite length_map, length_seq.
    replace (S i * c + j - c)%nat with (i * c + j)%nat by lia.
    rewrite IH by lia. do 2 f_equal. lia.
Qed.

(** [verticalGrid()] on a grid of [r] rows and [c] columns, whole numbers,
    returns once it has fuel for the tests of its loops.  It pushes r * c
    cells after those the grid already holds, which it keeps: the cell of
    row i and column j is at the index i * c + j among the new ones and
    has x = i * cell + border and y = j * cell + border. *)
Theorem verticalGrid_cells (g : Grid.t) (r c fuel : nat) :
  Grid.rows g = Loop.num r -> Grid.cols g = Loop.num c ->
  (r < fuel)%nat -> (c < fuel)%nat ->
  Grid.verticalGrid fuel g = Some (Cells.grow g (Cells.vertical g r c))
  /\ length (Cells.vertical g r c) = (r * c)%nat
  /\ forall i j, (i < r)%nat -> (j < c)%nat ->
       Cells.vertical g r c !! (i * c + j)%nat =
       Some (Vector.new
               (Loop.num i * Grid.cell g + Grid.border g)%num
               (Loop.num j * Grid.cell g + Grid.border g)%num undefined).
Proof.
  intros Hr Hc Hfr Hfc. split; [| split].
  - unfold Grid.verticalGrid. rewrite Hr.
    pose proof (nested_loops Cells.at_ Grid.cols g r c fuel
                  ltac:(done) ltac:(done) Hfc r 0 fuel []
                  ltac:(lia) ltac:(lia)) as H.
    rewrite grow_nil in H. exact H.
  - apply length_cells.
  - intros i j Hi Hj.
    exact (lookup_cells (Cells.at_ g) c r 0 i j Hi Hj).
Qed.

Lemma verticalGrid_cells_witness :
  let g := Grid.new (Loop.num 4) (Loop.num 4) (Fin 40) (Fin 50) in
  Grid.verticalGrid 5 g = Some (Cells.grow g (Cells.vertical g 4 4))
  /\ length (Cells.vertical g 4 4) = (4 * 4)%nat
  /\ forall i j, (i < 4)%nat -> (j < 4)%nat ->
       Cells.vertical g 4 4 !! (i * 4 + j)%nat =
       Some (Vector.new
               (Loop.num i * Grid.cell g + Grid.border g)%num
               (Loop.num j * Grid.cell g + Grid.border g)%num undefined).
Proof.
  apply (verticalGrid_cells
           (Grid.new (Loop.num 4) (Loop.num 4) (Fin 40) (Fin 50)) 4 4 5);
    [reflexivity | reflexivity | lia | lia].
Defined.

Lemma flat_map_cons_perm {A B : Type} (h : A -> B) (t : A -> list B)
    (l : list A) :
  Permutation (flat_map (fun a => h a :: t a) l)
              (List.map h l ++ flat_map t l).
Proof.
  induction l as [| a l IH]; cbn; [done |].
  constructor. rewrite IH.
  rewrite (app_assoc (t a)), (Permutation_app_comm (t a)), <- app_assoc.
  done.
Qed.

Lemma flat_map_swap {A : Type} (f : nat -> nat -> A) (la lb : list nat) :
  Permutation (flat_map (fun a => List.map (fun b => f a b) lb) la)
              (flat_map (fun b => List.map (fun a => f a b) la) lb).
Proof.
  induction la as [| a la IH]; cbn.
  - induction lb as [| b lb IHb]; cbn; [done | exact IHb].
  - rewrite IH. symmetry. apply (flat_map_cons_perm (f a)).
Qed.

(** [horizontalGrid()] on a grid of [r] rows and [c] columns, whole
    numbers, returns once it has fuel and pushes r * c cells: the cell with
    x from the row index j and y from the column index i is at the index
    i * r + j among the new ones.  These are the cells that [verticalGrid]
    pushes, in another order. *)
Theorem horizontalGrid_cells (g : Grid.t) (r c fuel : nat) :
  Grid.rows g = Loop.num r -> Grid.cols g = Loop.num c ->
  (r < fuel)%nat -> (c < fuel)%nat ->
  Grid.horizontalGrid fuel g = Some (Cells.grow g (Cells.horizontal g r c))
  /\ (forall i j, (i < c)%nat -> (j < r)%nat ->
        Cells.horizontal g r c !! (i * r + j)%nat =
        Some (Vector.new
                (Loop.num j * Grid.cell g + Grid.border g)%num
                (Loop.num i * Grid.cell g + Grid.border g)%num undefined))
  /\ Permutation (Cells.horizontal g r c) (Cells.vertical g r c).
Proof.
  intros Hr Hc Hfr Hfc. split; [| split].
  - unfold Grid.horizontalGrid. rewrite Hc.
    pose proof (nested_loops (fun g i j => Cells.at_ g j i) Grid.rows g c r
                  fuel ltac:(done) ltac:(done) Hfr c 0 fuel []
                  ltac:(lia) ltac:(lia)) as H.
    rewrite grow_nil in H. exact H.
  - intros i j Hi Hj.
    exact (lookup_cells (fun i j => Cells.at_ g j i) r c 0 i j Hi Hj).
  - unfold Cells.horizontal, Cells.vertical.
    apply (flat_map_swap (fun i j => Cells.at_ g j i)).
Qed.

Lemma horizontalGrid_cells_witness :
  let g := Grid.new (Loop.num 2) (Loop.num 3) (Fin 40) (Fin 50) in
  Grid.horizontalGrid 4 g = Some (Cells.grow g (Cells.horizontal g 2 3))
  /\ (forall i j, (i < 3)%nat -> (j < 2)%nat ->
        Cells.horizontal g 2 3 !! (i * 2 + j)%nat =
        Some (Vector.new
                (Loop.num j * Grid.cell g + Grid.border g)%num
                (Loop.num i * Grid.cell g + Grid.border g)%num undefined))
  /\ Permutation (Cells.horizontal g 2 3) (Cells.vertical g 2 3).
Proof.
  apply (horizontalGrid_cells
           (Grid.new (Loop.num 2) (Loop.num 3) (Fin 40) (Fin 50)) 2 3 4);
    [reflexivity | reflexivity | lia | lia].
Defined.

(** A grid whose number of rows is plus infinity, or that has a row and
    whose number of columns is plus infinity, keeps [verticalGrid] running
    whatever the fuel; a grid whose number of rows is NaN, 0 or negative
    gets no cell. *)
Theorem verticalGrid_edge_sizes (g : Grid.t) (fuel : nat) :
  (Grid.rows g = PInf -> Grid.verticalGrid fuel g = None)
  /\ (Num.lt (Fin 0) (Grid.rows g) = true -> Grid.cols g = PInf ->
      Grid.verticalGrid fuel g = None)
  /\ (Num.lt (Fin 0) (Grid.rows g) = false ->
      Grid.verticalGrid (S fuel) g = Some g).
Proof.
  unfold Grid.verticalGrid. split; [| split].
  - intros ->. apply for_lt_infinite.
  - intros Hrows Hcols. destruct fuel as [| fuel]; [done |].
    cbn [Loop.for_lt]. unfold Loop.num at 1. cbn [INR]. rewrite Hrows, Hcols.
    by rewrite for_lt_infinite.
  - intros Hrows. apply for_lt_done. unfold Loop.num. by cbn [INR].
Qed.

Lemma verticalGrid_edge_sizes_witness :
  Grid.verticalGrid 7 (Grid.new PInf (Fin 4) (Fin 40) (Fin 50)) = None
  /\ Grid.verticalGrid 7 (Grid.new (Fin 4) PInf (Fin 40) (Fin 50)) = None
  /\ Grid.verticalGrid 7 (Grid.new NaN (Fin 4) (Fin 40) (Fin 50)) =
     Some (Grid.new NaN (Fin 4) (Fin 40) (Fin 50)).
Proof.
  destruct (verticalGrid_edge_sizes
              (Grid.new PInf (Fin 4) (Fin 40) (Fin 50)) 7) as (H1 & _ & _).
  destruct (verticalGrid_edge_sizes
              (Grid.new (Fin 4) PInf (Fin 40) (Fin 50)) 7) as (_ & H2 & _).
  destruct (verticalGrid_edge_sizes
              (Grid.new NaN (Fin 4) (Fin 40) (Fin 50)) 6) as (_ & _ & H3).
  split; [| split].
  - apply H1. reflexivity.
  - apply H2; [| reflexivity]. cbn. apply bool_decide_eq_true_2. lra.
  - apply H3. reflexivity.
Defined.

(** [displayGrid] reads only indices that are in bounds, so it returns for
    every grid, and it issues for each cell, in the order of the grid, a
    [fillRect] and a [strokeRect] of the cell size at the cell; after
    [verticalGrid] on a new grid of r rows and c columns these are
    2 * r * c operations. *)
Theorem displayGrid_draws_each_cell (g : Grid.t) (renderer : Renderer.t)
    (r c fuel : nat) :
  Grid.displayGrid g renderer =
    Some (Api.issued renderer (flat_map (Cells.rect_ops g) (Grid.grid g)))
  /\ length (flat_map (Cells.rect_ops g) (Grid.grid g))
     = (2 * length (Grid.grid g))%nat
  /\ (Grid.grid g = [] -> Grid.rows g = Loop.num r ->
      Grid.cols g = Loop.num c -> (r < fuel)%nat -> (c < fuel)%nat ->
      exists g',
        Grid.verticalGrid fuel g = Some g'
        /\ Grid.displayGrid g' renderer =
           Some (Api.issued renderer
                   (flat_map (Cells.rect_ops g) (Cells.vertical g r c)))
        /\ length (flat_map (Cells.rect_ops g) (Cells.vertical g r c))
           = (2 * (r * c))%nat).
Proof.
  assert (Hlen : forall g l,
            length (flat_map (Cells.rect_ops g) l) = (2 * length l)%nat).
  { intros g0 l. induction l as [| v l IH]; cbn; [done |].
    rewrite IH. lia. }
  split; [| split].
  - unfold Grid.displayGrid. by rewrite displayGrid_loop_issues.
  - apply Hlen.
  - intros Hempty Hr Hc Hfr Hfc.
    exists (Cells.grow g (Cells.vertical g r c)). split; [| split].
    + unfold Grid.verticalGrid. rewrite Hr.
      pose proof (nested_loops Cells.at_ Grid.cols g r c fuel
                    ltac:(done) ltac:(done) Hfc r 0 fuel []
                    ltac:(lia) ltac:(lia)) as H.
      rewrite grow_nil in H. exact H.
    + unfold Grid.displayGrid. rewrite displayGrid_loop_issues by done.
      unfold Cells.grow. cbn. by rewrite Hempty.
    + rewrite Hlen. f_equal. apply length_cells.
Qed.

Lemma displayGrid_draws_each_cell_witness :
  let g := Grid.new (Loop.num 4) (Loop.num 4) (Fin 40) (Fin 50) in
  exists g',
    Grid.verticalGrid 5 g = Some g'
    /\ Grid.displayGrid g' (Renderer.new (Fin 400) (Fin 500)) =
       Some (Api.issued (Renderer.new (Fin 400) (Fin 500))
               (flat_map (Cells.rect_ops g) (Cells.vertical g 4 4)))
    /\ length (flat_map (Cells.rect_ops g) (Cells.vertical g 4 4))
       = (2 * (4 * 4))%nat.
Proof.
  destruct (displayGrid_draws_each_cell
              (Grid.new (Loop.num 4) (Loop.num 4) (Fin 40) (Fin 50))
              (Renderer.new (Fin 400) (Fin 500)) 4 4 5) as (_ & _ & H).
  apply H; [reflexivity | reflexivity | reflexivity | lia | lia].
Defined.

(** * Binary64: normalise, setMag, rotate and angleBetween *)

Section Binary64.
Import PrimFloat.
Local Open Scope float_scope.

(** ** Zeros and finite values *)

Lemma is_zero_SF (a : PrimFloat.float) :
  PrimFloat.is_zero a = true <->
  exists s, FloatOps.Prim2SF a = SpecFloat.S754_zero s.
Proof.
  unfold PrimFloat.is_zero. rewrite FloatAxioms.eqb_spec.
  change (FloatOps.Prim2SF PrimFloat.zero) with (SpecFloat.S754_zero false).
  destruct (FloatOps.Prim2SF a) as [s | s | | s m e]; cbn; split;
    try (intros [s' [=]]); try done; try (by destruct s); eauto.
Qed.

Lemma is_finite_SF (b : PrimFloat.float) :
  PrimFloat.is_finite b = true ->
  (exists s, FloatOps.Prim2SF b = SpecFloat.S754_zero s)
  \/ exists s m e, FloatOps.Prim2SF b = SpecFloat.S754_finite s m e.
Proof.
  unfold PrimFloat.is_finite, PrimFloat.is_nan, PrimFloat.is_infinity.
  rewrite !FloatAxioms.eqb_spec, FloatAxioms.abs_spec.
  change (FloatOps.Prim2SF PrimFloat.infinity)
    with (SpecFloat.S754_infinity false).
  destruct (FloatOps.Prim2SF b) as [s | s | | s m e]; cbn; try done.
  - intros _. left. eauto.
  - by destruct s.
  - intros _. right. eauto.
Qed.

Lemma zero_is_finite (a : PrimFloat.float) :
  PrimFloat.is_zero a = true -> PrimFloat.is_finite a = true.
Proof.
  intros [s Ha]%is_zero_SF.
  unfold PrimFloat.is_finite, PrimFloat.is_nan, PrimFloat.is_infinity.
  rewrite !FloatAxioms.eqb_spec, FloatAxioms.abs_spec, Ha.
  change (FloatOps.Prim2SF PrimFloat.infinity)
    with (SpecFloat.S754_infinity false).
  reflexivity.
Qed.

(** A zero times a finite number is a zero. *)
Lemma mul_zero_finite (a b : PrimFloat.float) :
  PrimFloat.is_zero a = true -> PrimFloat.is_finite b = true ->
  PrimFloat.is_zero (a * b)%float = true.
Proof.
  intros [s Ha]%is_zero_SF Hb%is_finite_SF. apply is_zero_SF.
  rewrite FloatAxioms.mul_spec, Ha. unfold FloatAxioms.SF64mul.
  destruct Hb as [[s' ->] | (s' & m & e & ->)]; cbn; eauto.
Qed.

Lemma mul_finite_zero (a b : PrimFloat.float) :
  PrimFloat.is_finite a = true -> PrimFloat.is_zero b = true ->
  PrimFloat.is_zero (a * b)%float = true.
Proof.
  intros Ha%is_finite_SF [s Hb]%is_zero_SF. apply is_zero_SF.
  rewrite FloatAxioms.mul_spec, Hb. unfold FloatAxioms.SF64mul.
  destruct Ha as [[s' ->] | (s' & m & e & ->)]; cbn; eauto.
Qed.

Lemma add_zero_zero (a b : PrimFloat.float) :
  PrimFloat.is_zero a = true -> PrimFloat.is_zero b = true ->
  PrimFloat.is_zero (a + b)%float = true.
Proof.
  intros [s Ha]%is_zero_SF [s' Hb]%is_zero_SF. apply is_zero_SF.
  rewrite FloatAxioms.add_spec, Ha, Hb. unfold FloatAxioms.SF64add.
  destruct s, s'; cbn; eauto.
Qed.

Lemma sqrt_zero (a : PrimFloat.float) :
  PrimFloat.is_zero a = true -> PrimFloat.is_zero (PrimFloat.sqrt a) = true.
Proof.
  intros [s Ha]%is_zero_SF. apply is_zero_SF.
  rewrite FloatAxioms.sqrt_spec, Ha. cbn. eauto.
Qed.

Lemma eqb_zeros (a b : PrimFloat.float) :
  PrimFloat.is_zero a = true -> PrimFloat.is_zero b = true ->
  (a =? b)%float = true.
Proof.
  intros [s Ha]%is_zero_SF [s' Hb]%is_zero_SF.
  by rewrite FloatAxioms.eqb_spec, Ha, Hb.
Qed.

Lemma is_zero_vector_fields (v : Vector64.t) :
  Vector64.is_zero_vector v = true ->
  PrimFloat.is_zero (Vector64.x v) = true
  /\ PrimFloat.is_zero (Vector64.y v) = true
  /\ PrimFloat.is_zero (Vector64.z v) = true.
Proof.
  unfold Vector64.is_zero_vector. rewrite !andb_true_iff. tauto.
Qed.

(** The squared magnitude of a zero vector is a zero, and so is its
    magnitude. *)
Lemma magnitudeSquared_zero_vector (v : Vector64.t) :
  Vector64.is_zero_vector v = true ->
  PrimFloat.is_zero (Vector64.magnitudeSquared v) = true.
Proof.
  intros (Hx & Hy & Hz)%is_zero_vector_fields.
  unfold Vector64.magnitudeSquared, F64.sq.
  repeat apply add_zero_zero; apply mul_zero_finite; auto using zero_is_finite.
Qed.

Lemma magnitude_zero_of_squared (v : Vector64.t) :
  PrimFloat.is_zero (Vector64.magnitudeSquared v) = true ->
  PrimFloat.is_zero (Vector64.magnitude v) = true.
Proof. apply sqrt_zero. Qed.

(** ** normalise *)

Lemma normalise64_run (s : gmap nat Vector64.t) (this : nat)
    (v : Vector64.t) :
  s !! this = Some v ->
  Obj64.normalise this s = Some (this, <[this := Vector64.normalise v]> s).
Proof.
  intros H. unfold Obj64.normalise, Obj64.read, Obj64.write, mbind,
    Obj64.M_bind, mret, Obj64.M_ret. by rewrite H.
Qed.

Lemma mult64_run (s : gmap nat Vector64.t) (this : nat) (v : Vector64.t)
    (k : PrimFloat.float) :
  s !! this = Some v ->
  Obj64.mult this k s = Some (tt, <[this := Vector64.mult v k]> s).
Proof.
  intros H. unfold Obj64.mult, Obj64.read, Obj64.write, mbind,
    Obj64.M_bind. by rewrite H.
Qed.

(** [normalise] by cases on its test [len !== 0]. *)
Lemma normalise64_cases (v : Vector64.t) :
  Vector64.normalise v
  = if PrimFloat.is_zero (Vector64.magnitude v) then v
    else Vector64.mult v (1 / Vector64.magnitude v).
Proof.
  unfold Vector64.normalise, PrimFloat.is_zero, PrimFloat.zero. cbv zeta.
  by destruct (Vector64.magnitude v =? _).
Qed.




(** ** setMag *)

Lemma setMag64_run (s : gmap nat Vector64.t) (this : nat) (v : Vector64.t)
    (m : PrimFloat.float) :
  s !! this = Some v ->
  Obj64.setMag this m s =
  Some (tt, <[this := Vector64.setMag v m]> s).
Proof.
  intros H. unfold Obj64.setMag, mbind, Obj64.M_bind.
  rewrite (normalise64_run _ _ _ H).
  rewrite (mult64_run _ _ (Vector64.normalise v)) by apply lookup_insert_eq.
  by rewrite insert_insert_eq.
Qed.

(** C6, in binary64, at two receivers whose magnitude is 0.  [setMag(NaN)]
    turns (0, 0, 0) into (NaN, NaN, NaN).  The squares of (1e-200, 0, 0)
    underflow, so that its magnitude is computed as 0, and [setMag(5)]
    turns it into (5e-200, 0, 0). *)
Lemma setMag64_changes_zero_magnitude :
  let v := Vector64.mk 0 0 0 in
  let w := Vector64.mk 0x1.87e92154ef7acp-665 0 0 in
  (PrimFloat.is_zero (Vector64.magnitude v) = true
   /\ Vector64.setMag v PrimFloat.nan
      = Vector64.mk PrimFloat.nan PrimFloat.nan PrimFloat.nan
   /\ Vector64.equals (Vector64.setMag v PrimFloat.nan) v = false)
  /\ (PrimFloat.is_zero (Vector64.magnitude w) = true
      /\ PrimFloat.is_finite 5 = true
      /\ Vector64.setMag w 5 = Vector64.mk 0x1.e9e369aa2b597p-663 0 0
      /\ Vector64.equals (Vector64.setMag w 5) w = false).
Proof. vm_compute. repeat split. Qed.

(** C6, amended: [setMag(m)] leaves in the receiver the components that
    [normalise()] followed by [mult(m)] leaves there.  When [magnitude()]
    is 0 these are the components of the receiver multiplied by [m]; so a
    receiver whose components are all zeros is still one, and [equals] its
    former self, for every finite [m]. *)
Theorem setMag64_normalise_mult (s : gmap nat Vector64.t) (this : nat)
    (v : Vector64.t) (m : PrimFloat.float) :
  s !! this = Some v ->
  Obj64.setMag this m s = (Obj64.normalise this ;; Obj64.mult this m) s
  /\ Obj64.setMag this m s
     = Some (tt, <[this := Vector64.mult (Vector64.normalise v) m]> s)
  /\ (PrimFloat.is_zero (Vector64.magnitude v) = true ->
      Vector64.setMag v m = Vector64.mult v m)
  /\ (Vector64.is_zero_vector v = true -> PrimFloat.is_finite m = true ->
      Vector64.is_zero_vector (Vector64.setMag v m) = true
      /\ Vector64.equals (Vector64.setMag v m) v = true).
Proof.
  intros H. rewrite (setMag64_run _ _ _ _ H).
  assert (Hzero : PrimFloat.is_zero (Vector64.magnitude v) = true ->
                  Vector64.setMag v m = Vector64.mult v m).
  { unfold Vector64.setMag. rewrite normalise64_cases. by intros ->. }
  split; [| split; [done | split; [done |]]].
  - unfold mbind, Obj64.M_bind. rewrite (normalise64_run _ _ _ H).
    rewrite (mult64_run _ _ (Vector64.normalise v)) by apply lookup_insert_eq.
    by rewrite insert_insert_eq.
  - intros Hv Hm.
    rewrite Hzero
      by (by apply magnitude_zero_of_squared, magnitudeSquared_zero_vector).
    destruct (is_zero_vector_fields v Hv) as (Hx & Hy & Hz).
    assert (Hx' := mul_zero_finite _ _ Hx Hm).
    assert (Hy' := mul_zero_finite _ _ Hy Hm).
    assert (Hz' := mul_zero_finite _ _ Hz Hm).
    unfold Vector64.is_zero_vector, Vector64.equals, Vector64.mult.
    cbn [Vector64.x Vector64.y Vector64.z].
    rewrite Hx', Hy', Hz'. split; [done |].
    by rewrite !eqb_zeros.
Qed.

Lemma setMag64_normalise_mult_witness :
  Vector64.is_zero_vector (Vector64.setMag (Vector64.mk 0 (-0) 0) (-7)) = true
  /\ Vector64.equals (Vector64.setMag (Vector64.mk 0 (-0) 0) (-7))
       (Vector64.mk 0 (-0) 0) = true.
Proof.
  destruct (setMag64_normalise_mult {[0%nat := Vector64.mk 0 (-0) 0]} 0%nat
              (Vector64.mk 0 (-0) 0) (-7)) as (_ & _ & _ & H).
  - apply lookup_singleton_eq.
  - apply H; vm_compute; reflexivity.
Defined.

(** ** angleBetween *)

(** C7, in binary64: the magnitude of (0, 0, 0) is 0, and its
    [angleBetween] with (1e200, 0, 0), in either order, is 0 and not NaN.
    The squared magnitude of (1e200, 0, 0) is computed as Infinity, and
    0 * Infinity is NaN, which is not [=== 0]. *)
Lemma angleBetween64_zero_not_NaN :
  let v1 := Vector64.mk 0 0 0 in
  let v2 := Vector64.mk 0x1.4e718d7d7625ap+664 0 0 in
  PrimFloat.is_zero (Vector64.magnitude v1) = true
  /\ Vector64.magnitudeSquared v2 = PrimFloat.infinity
  /\ Vector64.angleBetween v1 v2 = Some 0%float
  /\ Vector64.angleBetween v2 v1 = Some 0%float
  /\ PrimFloat.is_nan 0 = false.
Proof. vm_compute. repeat split. Qed.

(** C7, amended: [angleBetween] returns NaN, and raises nothing, whenever
    the product of the two squared magnitudes is 0: so it does when one
    vector has the squared magnitude 0, hence the magnitude 0, as a vector
    whose components are all zeros has, and the squared magnitude of the
    other is finite. *)
Theorem angleBetween64_guard (v1 v2 : Vector64.t) :
  (PrimFloat.is_zero
     (Vector64.magnitudeSquared v1 * Vector64.magnitudeSquared v2)%float
   = true ->
   Vector64.angleBetween v1 v2 = Some PrimFloat.nan)
  /\ (PrimFloat.is_zero (Vector64.magnitudeSquared v1) = true ->
      PrimFloat.is_finite (Vector64.magnitudeSquared v2) = true ->
      PrimFloat.is_zero (Vector64.magnitude v1) = true
      /\ Vector64.angleBetween v1 v2 = Some PrimFloat.nan)
  /\ (PrimFloat.is_finite (Vector64.magnitudeSquared v1) = true ->
      PrimFloat.is_zero (Vector64.magnitudeSquared v2) = true ->
      PrimFloat.is_zero (Vector64.magnitude v2) = true
      /\ Vector64.angleBetween v1 v2 = Some PrimFloat.nan)
  /\ (Vector64.is_zero_vector v1 = true ->
      PrimFloat.is_finite (Vector64.magnitudeSquared v2) = true ->
      Vector64.angleBetween v1 v2 = Some PrimFloat.nan)
  /\ (PrimFloat.is_finite (Vector64.magnitudeSquared v1) = true ->
      Vector64.is_zero_vector v2 = true ->
      Vector64.angleBetween v1 v2 = Some PrimFloat.nan).
Proof.
  assert (Hguard :
    PrimFloat.is_zero
      (Vector64.magnitudeSquared v1 * Vector64.magnitudeSquared v2)%float
    = true ->
    Vector64.angleBetween v1 v2 = Some PrimFloat.nan).
  { unfold Vector64.angleBetween, PrimFloat.is_zero, PrimFloat.zero.
    cbv zeta. by intros ->. }
  split; [done |]. repeat split.
  - by apply magnitude_zero_of_squared.
  - by apply Hguard, mul_zero_finite.
  - by apply magnitude_zero_of_squared.
  - by apply Hguard, mul_finite_zero.
  - intros Hz Hf.
    by apply Hguard, mul_zero_finite; [apply magnitudeSquared_zero_vector |].
  - intros Hf Hz.
    by apply Hguard, mul_finite_zero; [| apply magnitudeSquared_zero_vector].
Qed.

Lemma angleBetween64_guard_witness :
  (PrimFloat.is_zero (Vector64.magnitude (Vector64.mk 0 0 0)) = true
   /\ Vector64.angleBetween (Vector64.mk 0 0 0) (Vector64.mk 3 4 0)
      = Some PrimFloat.nan)
  /\ (PrimFloat.is_zero
        (Vector64.magnitude (Vector64.mk 0x1.87e92154ef7acp-665 0 0)) = true
      /\ Vector64.angleBetween (Vector64.mk 3 4 0)
           (Vector64.mk 0x1.87e92154ef7acp-665 0 0)
         = Some PrimFloat.nan).
Proof.
  destruct (angleBetween64_guard (Vector64.mk 0 0 0) (Vector64.mk 3 4 0))
    as (_ & H1 & _).
  destruct (angleBetween64_guard (Vector64.mk 3 4 0)
              (Vector64.mk 0x1.87e92154ef7acp-665 0 0)) as (_ & _ & H2 & _).
  split; [apply H1 | apply H2]; vm_compute; reflexivity.
Defined.

(** ** rotate *)






End Binary64.
